(** * Turkish morphological analyzer: the engine and its loaders

    A shallow embedding of [core_nlp/src/dataloader.py] and
    [core_nlp/src/engine.py].

    Conventions of the embedding:
    - a Python [str] is a list of Unicode code points ([N]), so that [len],
      slicing and [startswith] count characters as Python does;
    - a Python [dict] is an association list in insertion order with unique
      keys; a Python [set] is a duplicate-free list, in the order the
      interpreter would iterate it;
    - a call that may raise returns a [result]; exceptions are values of
      [exn];
    - [re.match] and [str.lower] belong to the Python library: the engine is
      written in a section over them, and [PyLib] gives concrete versions for
      closed examples;
    - text written by [print] is not part of the model;
    - a file that exists holds text that decodes as UTF-8: [Content] gives
      its decoded lines;
    - [_recursive_split] and [analyze] are the code with room on the call
      stack; [_recursive_split_within] and [analyze_within] are the same
      code under the interpreter's recursion limit. *)

From Stdlib Require Import List NArith ZArith QArith Bool Lia String Ascii.
Import ListNotations.
Open Scope N_scope.

(* ------------------------------------------------------------------ *)
(** ** Strings *)

Definition codepoint := N.
Definition str := list codepoint.

Definition chr_eqb (a b : codepoint) : bool := N.eqb a b.

Fixpoint str_eqb (a b : str) : bool :=
  match a, b with
  | [], [] => true
  | x :: a', y :: b' => chr_eqb x y && str_eqb a' b'
  | _, _ => false
  end.

(** [word.startswith(root)] *)
Fixpoint startswith (word root : str) : bool :=
  match root, word with
  | [], _ => true
  | r :: root', w :: word' => chr_eqb r w && startswith word' root'
  | _ :: _, [] => false
  end.

(** [len(s)] *)
Definition len (s : str) : nat := List.length s.

(** [s[:-n]] for [1 <= n]: everything but the last [n] characters, the
    empty string when [s] has fewer than [n]. *)
Definition slice_to_neg (n : nat) (s : str) : str := firstn (len s - n) s.

(** [key in set_or_list_of_str] *)
Definition str_mem (s : str) (l : list str) : bool := existsb (str_eqb s) l.

(** Decoding of UTF-8 source literals into code points, so that examples can
    be written as ordinary string literals. *)
Fixpoint utf8_decode (bs : list N) : str :=
  match bs with
  | [] => []
  | b :: rest =>
      if b <? 128 then b :: utf8_decode rest
      else if b <? 224 then
        match rest with
        | c :: rest' => ((b - 192) * 64 + (c - 128)) :: utf8_decode rest'
        | _ => [b]
        end
      else if b <? 240 then
        match rest with
        | c :: d :: rest' =>
            ((b - 224) * 4096 + (c - 128) * 64 + (d - 128)) :: utf8_decode rest'
        | _ => [b]
        end
      else
        match rest with
        | c :: d :: e :: rest' =>
            ((b - 240) * 262144 + (c - 128) * 4096 + (d - 128) * 64 + (e - 128))
              :: utf8_decode rest'
        | _ => [b]
        end
  end.

Definition u (s : string) : str :=
  utf8_decode (List.map N_of_ascii (list_ascii_of_string s)).

(** [s.split(sep)] for a one-character separator.  The result is never empty: [''.split(' ') == ['']]. *)
Fixpoint split_char (sep : codepoint) (s : str) : list str :=
  match s with
  | [] => [[]]
  | c :: rest =>
      if chr_eqb c sep then [] :: split_char sep rest
      else match split_char sep rest with
           | w :: ws => (c :: w) :: ws
           | [] => [[c]]
           end
  end.

(** [str.isspace] on one character. *)
Definition is_space (c : codepoint) : bool :=
  ((9 <=? c) && (c <=? 13)) || ((28 <=? c) && (c <=? 32))
  || (c =? 133) || (c =? 160) || (c =? 5760)
  || ((8192 <=? c) && (c <=? 8202))
  || (c =? 8232) || (c =? 8233) || (c =? 8239) || (c =? 8287) || (c =? 12288).

Fixpoint lstrip (s : str) : str :=
  match s with
  | c :: rest => if is_space c then lstrip rest else s
  | [] => []
  end.

(** [s.strip()] *)
Definition strip_ws (s : str) : str := rev (lstrip (rev (lstrip s))).

(** [s.split()]: maximal runs of non-space characters. *)
Fixpoint split_ws_aux (cur : str) (s : str) : list str :=
  match s with
  | [] => match cur with [] => [] | _ => [rev cur] end
  | c :: rest =>
      if is_space c
      then match cur with
           | [] => split_ws_aux [] rest
           | _ => rev cur :: split_ws_aux [] rest
           end
      else split_ws_aux (c :: cur) rest
  end.

Definition split_ws (s : str) : list str := split_ws_aux [] s.

(* ------------------------------------------------------------------ *)
(** ** Exceptions and the error monad *)

Inductive exn : Type :=
| FileNotFoundError
| PermissionError
| StopIteration
| ValueError (msg : string)
| TypeError (msg : string)
| RecursionError
| re_error (pattern : str).

(** [isinstance(e, OSError)] *)
Definition is_OSError (e : exn) : bool :=
  match e with
  | FileNotFoundError | PermissionError => true
  | _ => false
  end.

Inductive result (A : Type) : Type :=
| Ok (a : A)
| Raise (e : exn).
Arguments Ok {A} a.
Arguments Raise {A} e.

Definition bind {A B} (m : result A) (k : A -> result B) : result B :=
  match m with
  | Ok a => k a
  | Raise e => Raise e
  end.

Notation "x <- m ;; k" := (bind m (fun x => k))
  (at level 61, m at next level, right associativity).

(** A [for] loop whose body extends an output list and may raise. *)
Fixpoint for_each {A B} (body : A -> result (list B)) (l : list A)
  : result (list B) :=
  match l with
  | [] => Ok []
  | a :: rest =>
      out <- body a ;;
      outs <- for_each body rest ;;
      Ok (out ++ outs)
  end.

(* ------------------------------------------------------------------ *)
(** ** Dictionaries in insertion order *)

Section Dict.
Context {V : Type}.

(** [d.get(k)] / [k in d] *)
Fixpoint dict_get (k : str) (d : list (str * V)) : option V :=
  match d with
  | [] => None
  | (k', v) :: rest => if str_eqb k k' then Some v else dict_get k rest
  end.

(** [d[k] = v]: an existing key keeps its position. *)
Fixpoint dict_set (k : str) (v : V) (d : list (str * V)) : list (str * V) :=
  match d with
  | [] => [(k, v)]
  | (k', v') :: rest =>
      if str_eqb k k' then (k', v) :: rest else (k', v') :: dict_set k v rest
  end.
End Dict.

(** [if k not in d: d[k] = []] followed by [d[k].append(x)] *)
Definition dict_append {A} (k : str) (x : A) (d : list (str * list A))
  : list (str * list A) :=
  match dict_get k d with
  | None => dict_set k [x] d
  | Some xs => dict_set k (xs ++ [x]) d
  end.

(* ------------------------------------------------------------------ *)
(** ** Data model *)

(** A dictionary value [{"type": "root", "flags": set(...), "bool": True}]. *)
Record DictionaryEntry : Type := mkEntry {
  entry_type : str;
  entry_flags : list str;
  entry_bool : bool
}.

(** A rule [{"strip": ..., "add": ..., "cond": ...}]. *)
Record AffixRule : Type := mkRule {
  strip : str;
  add : str;
  cond : str
}.

Definition Lexicon := list (str * DictionaryEntry).
Definition RuleSet := list (str * list AffixRule).
Definition RuleIndex := list (str * list AffixRule).

(** [set(l)]: the elements of [l] without repetition. *)
Fixpoint set_of_list (l : list str) : list str :=
  match l with
  | [] => []
  | x :: rest => if str_mem x rest then set_of_list rest else x :: set_of_list rest
  end.

(* ------------------------------------------------------------------ *)
(** ** dataloader.py *)

Module Dataloader.

Definition path := string.

(** What a path holds.  The lines of a file are the strings its iterator
    yields, already decoded. *)
Inductive fstate : Type :=
| Absent
| Unreadable
| Content (lines : list str).

Definition filesystem := path -> fstate.

(** [open(path, encoding="utf-8")] and the lines it iterates over. *)
Definition open_ (fs : filesystem) (p : path) : result (list str) :=
  match fs p with
  | Absent => Raise FileNotFoundError
  | Unreadable => Raise PermissionError
  | Content lines => Ok lines
  end.

(** [try: body  except OSError: return handler] *)
Definition try_except_OSError {A} (body : result A) (handler : A) : result A :=
  match body with
  | Ok a => Ok a
  | Raise e => if is_OSError e then Ok handler else Raise e
  end.

(** [next(f)] on the iterator of the remaining lines. *)
Definition next_ (lines : list str) : result (str * list str) :=
  match lines with
  | [] => Raise StopIteration
  | l :: rest => Ok (l, rest)
  end.

(** One turn of the loop over dictionary lines. *)
Definition dic_line (dictionary : Lexicon) (line : str) : Lexicon :=
  let line := strip_ws line in
  match line with
  | [] => dictionary
  | _ =>
      let parts := split_char 47 line in
      let word := hd [] parts in
      match parts with
      | _ :: flags_text :: _ =>
          let flags := split_char 44 flags_text in
          dict_set word (mkEntry (u "root") (set_of_list flags) true) dictionary
      | _ =>
          dict_set word (mkEntry (u "root") [] true) dictionary
      end
  end.

(** [load_dic]: the value returned is [Some d] for a dict [d]; [None]
    stands for Python's [None]. *)
Definition load_dic (fs : filesystem) (p : path) : result (option Lexicon) :=
  try_except_OSError
    (f <- open_ fs p ;;
     hr <- next_ f ;;
     Ok (Some (fold_left dic_line (snd hr) [])))
    (Some []).

(** One turn of the loop over affix lines. *)
Definition aff_line (rules : RuleSet) (line : str) : RuleSet :=
  match split_ws line with
  | [] => rules
  | marker :: rest =>
      if str_eqb marker (u "SFX") then
        match rest with
        | flag :: strip0 :: add0 :: condition :: _ =>
            let strip := if str_eqb strip0 (u "0") then [] else strip0 in
            let add := if str_eqb add0 (u "0") then [] else add0 in
            dict_append flag (mkRule strip add condition) rules
        | _ => rules
        end
      else rules
  end.

Definition load_aff (fs : filesystem) (p : path) : result (option RuleSet) :=
  try_except_OSError
    (f <- open_ fs p ;;
     Ok (Some (fold_left aff_line f [])))
    (Some []).

End Dataloader.

(* ------------------------------------------------------------------ *)
(** ** engine.py *)

(** The attributes of a [MorphAnalyzer] instance. *)
Record MorphAnalyzer : Type := mkAnalyzer {
  dictionary : Lexicon;
  rules : RuleSet;
  rules_by_add : RuleIndex
}.

(** An analysis [{"root": ..., "stem": ..., "suffixes": ..., "flag_number": ...}]. *)
Record AnalysisRecord : Type := mkRecord {
  root : str;
  stem : str;
  suffixes : list str;
  flag_number : str
}.

(** An element of the list [analyze] returns: a record or a message. *)
Inductive analysis : Type :=
| Rec (r : AnalysisRecord)
| Diag (message : str).

(** [f"No analysis found for '{word}'"] *)
Definition no_analysis_found (word : str) : str :=
  u "No analysis found for '" ++ word ++ u "'".

(** [_build_reverse_rules]: index the rules by their [add] text. *)
Definition _build_reverse_rules (rules : RuleSet) : RuleIndex :=
  fold_left
    (fun idx (item : str * list AffixRule) =>
       fold_left (fun idx rule => dict_append (add rule) rule idx) (snd item) idx)
    rules [].

(** The fixed set [{"y", "n", "s", "m", "k", "z", "l"}]. *)
Definition buffer_letters : list str :=
  [u "y"; u "n"; u "s"; u "m"; u "k"; u "z"; u "l"].

(** [s.add(x)] on a set kept as a list. *)
Definition set_add (x : str) (s : list str) : list str :=
  if str_mem x s then s else s ++ [x].

(** The set [known_suffixes] that [_select_best_match] builds. *)
Definition known_suffixes (self : MorphAnalyzer) : list str :=
  let from_rules :=
    fold_left
      (fun known (item : str * list AffixRule) =>
         fold_left
           (fun known rule =>
              match add rule with
              | [] => known
              | _ => set_add (add rule) known
              end)
           (snd item) known)
      (rules self) [] in
  fold_left (fun known b => set_add b known) buffer_letters from_rules.

(** The body of the loop over the parts of a candidate. *)
Definition score_part (known : list str) (score : Z) (part : str) : Z :=
  if str_mem part known then (score + 10)%Z
  else if Nat.eqb (len part) 1 then (score - 1)%Z
  else (score - 5)%Z.

(** The score of a candidate.  The source adds the float [len * 0.5] to an
    integer; both are multiples of one half far below 2^53, on which float
    arithmetic is exact, so the score is the rational number below. *)
Definition candidate_score (known : list str) (candidate : list str) : Q :=
  (inject_Z (fold_left (score_part known) candidate 0%Z)
   + inject_Z (Z.of_nat (List.length candidate)) * (1 # 2))%Q.

(** [list.sort(key=lambda x: x[0], reverse=True)]: a stable sort, largest
    key first; elements with equal keys keep their order. *)
Fixpoint insert_desc (x : Q * list str) (l : list (Q * list str))
  : list (Q * list str) :=
  match l with
  | [] => [x]
  | y :: rest =>
      if Qle_bool (fst y) (fst x) then x :: y :: rest
      else y :: insert_desc x rest
  end.

Definition sort_desc (l : list (Q * list str)) : list (Q * list str) :=
  fold_right insert_desc [] l.

Definition _select_best_match (self : MorphAnalyzer)
  (list_of_possible_matches : list (list str)) : list (list str) :=
  match list_of_possible_matches with
  | [] => []
  | _ =>
      let known := known_suffixes self in
      let scored_candidates :=
        sort_desc
          (List.map (fun candidate => (candidate_score known candidate, candidate))
                    list_of_possible_matches) in
      match scored_candidates with
      | [] => []
      | (best_score, _) :: _ =>
          List.map snd
            (filter (fun sc => Qeq_bool (fst sc) best_score) scored_candidates)
      end
  end.

Section Engine.

(** [re.match(pattern, text)] as a truth value; it raises on a pattern that
    does not compile. *)
Variable re_match : str -> str -> result bool.

(** [str.lower] *)
Variable lower : str -> str.

(** The loop that sets [valid]: some indexed rule has the condition ["."] or
    a condition matching [stem]. *)
Fixpoint some_rule_valid (stem : str) (indexed : list AffixRule) : result bool :=
  match indexed with
  | [] => Ok false
  | rule :: rest =>
      if str_eqb (cond rule) (u ".") then Ok true
      else
        m <- re_match (cond rule) stem ;;
        if (m : bool) then Ok true else some_rule_valid stem rest
  end.

(** The loop [for i in range(1, len(suffix) + 1)] of [_recursive_split], from
    the prefix [part] on, with [rest] the text after it; [recurse] is the
    recursive call. *)
Definition split_loop (recurse : str -> str -> result (list (list str)))
  (index : RuleIndex) (stem : str)
  : str -> str -> result (list (list str)) :=
  fix loop (part rest : str) {struct rest} : result (list (list str)) :=
    here <-
      match dict_get part index with
      | Some indexed =>
          valid <- some_rule_valid stem indexed ;;
          if (valid : bool) then
            sub_results <- recurse (stem ++ part) rest ;;
            Ok (List.map (cons part) sub_results)
          else Ok []
      | None => Ok []
      end ;;
    more <-
      match rest with
      | [] => Ok []
      | c :: rest' => loop (part ++ [c]) rest'
      end ;;
    Ok (here ++ more).

Fixpoint _recursive_split (self : MorphAnalyzer) (stem suffix : str)
  {struct suffix} : result (list (list str)) :=
  match suffix with
  | [] => Ok [[]]
  | c :: rest =>
      split_loop (_recursive_split self) (rules_by_add self) stem [c] rest
  end.

(** The body of [for rule in self.rules[flag]]. *)
Definition apply_rule (self : MorphAnalyzer) (word root_ flag : str)
  (rule : AffixRule) : result (list analysis) :=
  let strip := strip rule in
  let add := add rule in
  let condition := cond rule in
  cond_ok <-
    (if str_eqb condition (u ".") then Ok true else re_match condition root_) ;;
  if negb cond_ok then Ok []
  else
    modified_root <-
      match strip with
      | [] => Ok root_
      | _ =>
          m <- re_match strip root_ ;;
          Ok (if (m : bool) then slice_to_neg (len strip) root_ else root_)
      end ;;
    let expected_word := modified_root ++ add in
    if str_eqb expected_word word then
      possible_splits <- _recursive_split self modified_root add ;;
      let best_match := _select_best_match self possible_splits in
      let best_match :=
        match best_match with [] => [[add]] | _ => best_match end in
      Ok (List.map
            (fun possible_split =>
               Rec (mkRecord root_ add possible_split flag))
            possible_splits)
    else Ok [].

(** The body of [for flag in flags.get("flags", set())]. *)
Definition apply_flag (self : MorphAnalyzer) (word root_ flag : str)
  : result (list analysis) :=
  match dict_get flag (rules self) with
  | None => Ok []
  | Some flag_rules => for_each (apply_rule self word root_ flag) flag_rules
  end.

(** The body of [for root, flags in self.dictionary.items()]. *)
Definition apply_root (self : MorphAnalyzer) (word : str)
  (item : str * DictionaryEntry) : result (list analysis) :=
  let root_ := fst item in
  let flags := snd item in
  if Nat.leb (len word) (len root_) then Ok []
  else if negb (startswith word root_) then Ok []
  else for_each (apply_flag self word root_) (entry_flags flags).

(** The body of [for word in list_of_sentences]. *)
Definition analyze_word (self : MorphAnalyzer) (word : str)
  : result (list analysis) :=
  for_each (apply_root self word) (dictionary self).

(** The [try] block of [analyze].  After the loop [word] is the last
    element of [list_of_sentences], which is never empty. *)
Definition analyze_body (self : MorphAnalyzer) (sentences : str)
  : result (list analysis) :=
  let list_of_sentences := List.map lower (split_char 32 sentences) in
  analyses <- for_each (analyze_word self) list_of_sentences ;;
  let word := last list_of_sentences [] in
  Ok (match analyses with
      | [] => [Diag (no_analysis_found word)]
      | _ => analyses
      end).

Definition cannot_catch : string :=
  "catching classes that do not inherit from BaseException is not allowed".

(** [analyze].  The handler [except MorphologicalException.ANALYZE_ERROR]
    names an [Enum] member, not an exception class: when the [try] block
    raises, testing the exception against it raises [TypeError]. *)
Definition analyze (self : MorphAnalyzer) (sentences : str)
  : result (list analysis) :=
  match analyze_body self sentences with
  | Ok analyses => Ok analyses
  | Raise _ => Raise (TypeError cannot_catch)
  end.

(** *** The rule-matching step in the specification's words *)

(** The rule's condition is satisfied by the root: it is ["."], or it
    matches the root. *)
Definition condition_holds (root_ : str) (rule : AffixRule) : Prop :=
  cond rule = u "." \/ re_match (cond rule) root_ = Ok true.

(** [modified_root] is the root stripped for the rule: when the strip is
    present and its pattern matches, the root without as many final
    characters as the strip has; the root itself otherwise. *)
Definition stripped_root (root_ : str) (rule : AffixRule) (modified_root : str)
  : Prop :=
  (strip rule <> [] /\ re_match (strip rule) root_ = Ok true /\
   exists tail, root_ = modified_root ++ tail /\
                len tail = Nat.min (len (strip rule)) (len root_))
  \/
  ((strip rule = [] \/ re_match (strip rule) root_ = Ok false) /\
   modified_root = root_).

(** The rule matches the word: the expected word, the stripped root followed
    by the rule's [add], is the word. *)
Definition rule_match (word root_ : str) (rule : AffixRule) (modified_root : str)
  : Prop :=
  condition_holds root_ rule /\
  stripped_root root_ rule modified_root /\
  modified_root ++ add rule = word.

(** The three stages of [apply_rule], named for the proofs. *)
Definition check_condition (root_ : str) (rule : AffixRule) : result bool :=
  if str_eqb (cond rule) (u ".") then Ok true else re_match (cond rule) root_.

Definition strip_step (root_ : str) (rule : AffixRule) : result str :=
  match strip rule with
  | [] => Ok root_
  | _ =>
      m <- re_match (strip rule) root_ ;;
      Ok (if (m : bool) then slice_to_neg (len (strip rule)) root_ else root_)
  end.

Definition emit (self : MorphAnalyzer) (word root_ flag : str)
  (rule : AffixRule) (modified_root : str) : result (list analysis) :=
  if str_eqb (modified_root ++ add rule) word then
    possible_splits <- _recursive_split self modified_root (add rule) ;;
    Ok (List.map (fun s => Rec (mkRecord root_ (add rule) s flag)) possible_splits)
  else Ok [].

(** The record [r] is an analysis of [word]: its root is a dictionary root,
    strictly shorter than the word and a prefix of it; its flag is one of
    the root's flags and has rules; one of these rules matches the word;
    its stem is that rule's [add] and its suffixes are one decomposition of
    it. *)
Definition derives (self : MorphAnalyzer) (word : str) (r : AnalysisRecord)
  : Prop :=
  exists entry flag_rules rule modified_root splits,
    In (root r, entry) (dictionary self) /\
    (len (root r) < len word)%nat /\
    startswith word (root r) = true /\
    In (flag_number r) (entry_flags entry) /\
    dict_get (flag_number r) (rules self) = Some flag_rules /\
    In rule flag_rules /\
    rule_match word (root r) rule modified_root /\
    stem r = add rule /\
    _recursive_split self modified_root (add rule) = Ok splits /\
    In (suffixes r) splits.

(** *** Patterns that compile *)





End Engine.

(** [MorphAnalyzer.__init__]: load both tables, fail when one is [None],
    build the index.  The handler [except Exception] prints and raises
    again. *)
Definition dictionary_error : string := "Dictionary or rules could not be loaded".

Definition MorphAnalyzer__init__ (fs : Dataloader.filesystem)
  (_ROOT_PATH : Dataloader.path) : result MorphAnalyzer :=
  dictionary <- Dataloader.load_dic fs (_ROOT_PATH ++ "/data/tr_TR.dic")%string ;;
  rules <- Dataloader.load_aff fs (_ROOT_PATH ++ "/data/tr_TR.aff")%string ;;
  match dictionary, rules with
  | Some dictionary, Some rules =>
      Ok (mkAnalyzer dictionary rules (_build_reverse_rules rules))
  | _, _ => Raise (ValueError dictionary_error)
  end.

(* ------------------------------------------------------------------ *)
(** ** The Python library functions the engine calls *)

Module PyLib.

(** [str.lower] on Basic Latin, Latin-1 and the Turkish capitals; the other
    code points are left as they are. *)
Definition lower_char (c : codepoint) : str :=
  if (65 <=? c) && (c <=? 90) then [c + 32]
  else if (192 <=? c) && (c <=? 222) && negb (c =? 215) then [c + 32]
  else if c =? 286 then [287]
  else if c =? 350 then [351]
  else if c =? 304 then [105; 775]
  else [c].

Definition lower (s : str) : str := flat_map lower_char s.

(** Regular expressions: the patterns made of literal characters, [.] and
    bracket sets [[...]], [[^...]] with ranges.  A pattern that uses a
    repetition, a group, an alternative, an anchor or an escape is outside
    this fragment. *)
Inductive atom : Type :=
| Lit (c : codepoint)
| AnyChar
| CharSet (negated : bool) (items : list (codepoint * codepoint)).

Inductive parsed (A : Type) : Type :=
| Parsed (a : A)
| Invalid
| Unsupported.
Arguments Parsed {A} a.
Arguments Invalid {A}.
Arguments Unsupported {A}.

Definition is_special (c : codepoint) : bool :=
  existsb (N.eqb c) [42; 43; 63; 123; 125; 40; 41; 124; 92; 94; 36; 93].

Definition cons_atom (a : atom) (r : parsed (list atom)) : parsed (list atom) :=
  match r with
  | Parsed atoms => Parsed (a :: atoms)
  | other => other
  end.

(** The state of the pattern reader inside a bracket set: whether the set is
    negated, whether the next item is the first one (where a closing bracket
    is a literal), and the items read so far, last first. *)
Definition set_state : Type := (bool * bool * list (codepoint * codepoint))%type.

(** Reading a pattern, outside a set ([None]) or inside one.  A set without
    its closing bracket, or a range whose ends are out of order, does not
    compile. *)
Fixpoint parse_pattern (in_set : option set_state) (p : str) : parsed (list atom) :=
  match in_set with
  | None =>
      match p with
      | [] => Parsed []
      | 46 :: rest => cons_atom AnyChar (parse_pattern None rest)
      | 91 :: 94 :: rest => parse_pattern (Some (true, true, [])) rest
      | 91 :: rest => parse_pattern (Some (false, true, [])) rest
      | c :: rest =>
          if is_special c then Unsupported
          else cons_atom (Lit c) (parse_pattern None rest)
      end
  | Some (negated, first, acc) =>
      match p with
      | [] => Invalid
      | c :: rest =>
          if (c =? 93) && negb first
          then cons_atom (CharSet negated (rev acc)) (parse_pattern None rest)
          else if c =? 92 then Unsupported
          else
            match rest with
            | 45 :: hi :: rest' =>
                if hi =? 93
                then parse_pattern (Some (negated, false, (c, c) :: acc)) rest
                else if hi =? 92 then Unsupported
                else if hi <? c then Invalid
                else parse_pattern (Some (negated, false, (c, hi) :: acc)) rest'
            | _ => parse_pattern (Some (negated, false, (c, c) :: acc)) rest
            end
      end
  end.

Definition atom_matches (a : atom) (c : codepoint) : bool :=
  match a with
  | Lit x => c =? x
  | AnyChar => negb (c =? 10)
  | CharSet negated items =>
      xorb negated (existsb (fun lh => (fst lh <=? c) && (c <=? snd lh)) items)
  end.

(** A match anchored at the start of [s]; the pattern may end before [s]. *)
Fixpoint atoms_match (atoms : list atom) (s : str) : bool :=
  match atoms, s with
  | [], _ => true
  | a :: atoms', c :: s' => atom_matches a c && atoms_match atoms' s'
  | _ :: _, [] => false
  end.

(** [re.match(pattern, text)] on the fragment: the truth value of the
    result, or [re.error] for a pattern that does not compile.  On a pattern
    outside the fragment the function stops with [re_error] as well and says
    nothing about Python. *)
Definition re_match (pattern text : str) : result bool :=
  match parse_pattern None pattern with
  | Parsed atoms => Ok (atoms_match atoms text)
  | Invalid => Raise (re_error pattern)
  | Unsupported => Raise (re_error pattern)
  end.

End PyLib.

(* ------------------------------------------------------------------ *)
(** ** The scorer in the specification's words *)

(** All the rules of a table. *)
Definition all_rules (table : list (str * list AffixRule)) : list AffixRule :=
  flat_map snd table.

(** The known suffixes: the non-empty [add] texts of the rules, and the
    seven buffer letters. *)
Definition add_is (part : str) (rule : AffixRule) : bool :=
  match add rule with
  | [] => false
  | _ => str_eqb part (add rule)
  end.

Definition is_known (self : MorphAnalyzer) (part : str) : bool :=
  existsb (add_is part) (all_rules (rules self))
  || str_mem part buffer_letters.

(** The value of one part. *)
Definition part_value (known : list str) (part : str) : Z :=
  if str_mem part known then 10%Z
  else if Nat.eqb (len part) 1 then (-1)%Z
  else (-5)%Z.

(** The score: the values of the parts, and one half per part. *)
Definition spec_score (known : list str) (candidate : list str) : Q :=
  (inject_Z (fold_right Z.add 0%Z (List.map (part_value known) candidate))
   + (1 # 2) * inject_Z (Z.of_nat (List.length candidate)))%Q.

(** [candidate] reaches the maximum score among [candidates]. *)
Definition is_best (known : list str) (candidates : list (list str))
  (candidate : list str) : bool :=
  forallb (fun other => Qle_bool (candidate_score known other)
                                 (candidate_score known candidate))
          candidates.

(** A candidate with its score, as the scorer sorts them. *)
Definition keyed := (Q * list str)%type.

(** The first element of a list of scored candidates has the largest
    score. *)
Definition head_is_max (l : list keyed) : Prop :=
  match l with
  | [] => True
  | h :: rest => forall y, In y rest -> (fst y <= fst h)%Q
  end.

(* ------------------------------------------------------------------ *)
(** ** Example analyzers *)

Module Examples.

(** The dictionary [{"gör": {flags: {"F1"}}}]. *)
Definition gor_dictionary : Lexicon :=
  [(u "gör", mkEntry (u "root") [u "F1"] true)].

(** An analyzer over [gor_dictionary] whose flag [F1] has the one rule
    [rule], as [__init__] builds it. *)
Definition gor_analyzer (rule : AffixRule) : MorphAnalyzer :=
  mkAnalyzer gor_dictionary [(u "F1", [rule])]
             (_build_reverse_rules [(u "F1", [rule])]).

(** [F1: strip="", add="dim", cond="."] *)
Definition rule_dim : AffixRule := mkRule [] (u "dim") (u ".").

(** A rule with a strip: [F1: strip="g", add="rdim", cond="."] *)
Definition rule_strip : AffixRule := mkRule (u "g") (u "rdim") (u ".").

(** A rule whose condition is not a regular expression:
    [F1: strip="", add="dim", cond="["]. *)
Definition rule_bad_cond : AffixRule := mkRule [] (u "dim") (u "[").

Definition record_dim : AnalysisRecord :=
  mkRecord (u "gör") (u "dim") [u "dim"] (u "F1").

Definition record_strip : AnalysisRecord :=
  mkRecord (u "gör") (u "rdim") [u "rdim"] (u "F1").



(** Two rules of one flag: [add="a"] and [add="aaaa"], both without strip
    and with the condition ["."]; the analyzer [__init__] builds from them
    over [gor_dictionary]. *)
Definition rules_a_aaaa : RuleSet :=
  [(u "F1", [mkRule [] (u "a") (u "."); mkRule [] (u "aaaa") (u ".")])].

Definition a_aaaa_analyzer : MorphAnalyzer :=
  mkAnalyzer gor_dictionary rules_a_aaaa (_build_reverse_rules rules_a_aaaa).

(** File systems: nothing exists; every path is an empty file. *)
Definition no_files : Dataloader.filesystem := fun _ => Dataloader.Absent.
Definition empty_files : Dataloader.filesystem := fun _ => Dataloader.Content [].

End Examples.

(* ------------------------------------------------------------------ *)
(** ** Further notions for the properties of the loaders and the engine *)

(** The text of a line of the dictionary file is kept: it is not blank. *)
Definition dic_line_kept (line : str) : bool :=
  match strip_ws line with
  | [] => false
  | _ => true
  end.

(** The root a kept dictionary line names: the text before the first
    slash. *)
Definition dic_line_root (line : str) : str :=
  hd [] (split_char 47 (strip_ws line)).

(** The flags a kept dictionary line gives to its root. *)
Definition dic_line_flags (line : str) : list str :=
  match split_char 47 (strip_ws line) with
  | _ :: flags_text :: _ => set_of_list (split_char 44 flags_text)
  | _ => []
  end.

(** A line of the affix file is a suffix rule: its first token is [SFX] and
    it has at least five tokens. *)
Definition is_sfx_rule_line (line : str) : bool :=
  match split_ws line with
  | marker :: _ :: _ :: _ :: _ :: _ => str_eqb marker (u "SFX")
  | _ => false
  end.

(** A text without white space. *)
Definition no_space (s : str) : Prop := forall c, In c s -> is_space c = false.

(** What every entry of a loaded dictionary satisfies. *)
Definition entry_well_formed (item : str * DictionaryEntry) : Prop :=
  entry_type (snd item) = u "root" /\
  entry_bool (snd item) = true /\
  NoDup (entry_flags (snd item)) /\
  ~ In 47 (fst item) /\
  (forall flag, In flag (entry_flags (snd item)) ->
                ~ In 44 flag /\ ~ In 47 flag).

(** What every rule of a loaded rule set satisfies. *)
Definition rule_well_formed (rule : AffixRule) : Prop :=
  cond rule <> [] /\
  strip rule <> u "0" /\
  add rule <> u "0" /\
  no_space (strip rule) /\ no_space (add rule) /\ no_space (cond rule).

(** The keys of a dictionary, in order. *)
Definition keys {V} (d : list (str * V)) : list str := List.map fst d.

(** [parts] is a decomposition the decomposer accepts from [stem] on: every
    part is a non-empty key of the index, and some rule indexed under it has
    the condition ["."] or a condition matching the stem followed by the
    parts before it. *)
Inductive valid_split (re_match : str -> str -> result bool)
  (index : RuleIndex) : str -> list str -> Prop :=
| valid_split_nil (stem_ : str) : valid_split re_match index stem_ []
| valid_split_cons (stem_ part : str) (rest : list str)
    (indexed : list AffixRule) :
    part <> [] ->
    dict_get part index = Some indexed ->
    some_rule_valid re_match stem_ indexed = Ok true ->
    valid_split re_match index (stem_ ++ part) rest ->
    valid_split re_match index stem_ (part :: rest).

(** The records of a result, without the messages. *)
Definition records_of (l : list analysis) : list AnalysisRecord :=
  flat_map (fun x => match x with Rec r => [r] | Diag _ => [] end) l.

(** The input words of [analyze]. *)
Definition words_of (lower : str -> str) (sentences : str) : list str :=
  List.map lower (split_char 32 sentences).

(* ------------------------------------------------------------------ *)
(** ** The engine under the recursion limit *)

Section EngineWithin.
Variable re_match : str -> str -> result bool.
Variable lower : str -> str.

(** [_recursive_split] with [room] frames left on the interpreter's call
    stack when it is called: every activation takes one frame, and a call
    made when none is left raises [RecursionError].  The library calls an
    activation makes are taken to fit in the frames that are left. *)
Fixpoint _recursive_split_within (self : MorphAnalyzer) (room : nat)
  (stem suffix : str) {struct suffix} : result (list (list str)) :=
  match room with
  | O => Raise RecursionError
  | S room' =>
      match suffix with
      | [] => Ok [[]]
      | c :: rest =>
          split_loop re_match (_recursive_split_within self room')
                     (rules_by_add self) stem [c] rest
      end
  end.

(** The body of [for rule in self.rules[flag]], calling [decompose] for
    [self._recursive_split]. *)
Definition apply_rule_with (decompose : str -> str -> result (list (list str)))
  (self : MorphAnalyzer) (word root_ flag : str) (rule : AffixRule)
  : result (list analysis) :=
  let strip := strip rule in
  let add := add rule in
  let condition := cond rule in
  cond_ok <-
    (if str_eqb condition (u ".") then Ok true else re_match condition root_) ;;
  if negb cond_ok then Ok []
  else
    modified_root <-
      match strip with
      | [] => Ok root_
      | _ =>
          m <- re_match strip root_ ;;
          Ok (if (m : bool) then slice_to_neg (len strip) root_ else root_)
      end ;;
    let expected_word := modified_root ++ add in
    if str_eqb expected_word word then
      possible_splits <- decompose modified_root add ;;
      let best_match := _select_best_match self possible_splits in
      let best_match :=
        match best_match with [] => [[add]] | _ => best_match end in
      Ok (List.map
            (fun possible_split =>
               Rec (mkRecord root_ add possible_split flag))
            possible_splits)
    else Ok [].

Definition apply_flag_with (decompose : str -> str -> result (list (list str)))
  (self : MorphAnalyzer) (word root_ flag : str) : result (list analysis) :=
  match dict_get flag (rules self) with
  | None => Ok []
  | Some flag_rules =>
      for_each (apply_rule_with decompose self word root_ flag) flag_rules
  end.

Definition apply_root_with (decompose : str -> str -> result (list (list str)))
  (self : MorphAnalyzer) (word : str) (item : str * DictionaryEntry)
  : result (list analysis) :=
  let root_ := fst item in
  let flags := snd item in
  if Nat.leb (len word) (len root_) then Ok []
  else if negb (startswith word root_) then Ok []
  else for_each (apply_flag_with decompose self word root_) (entry_flags flags).

Definition analyze_word_with (decompose : str -> str -> result (list (list str)))
  (self : MorphAnalyzer) (word : str) : result (list analysis) :=
  for_each (apply_root_with decompose self word) (dictionary self).

Definition analyze_body_with (decompose : str -> str -> result (list (list str)))
  (self : MorphAnalyzer) (sentences : str) : result (list analysis) :=
  let list_of_sentences := List.map lower (split_char 32 sentences) in
  analyses <- for_each (analyze_word_with decompose self) list_of_sentences ;;
  let word := last list_of_sentences [] in
  Ok (match analyses with
      | [] => [Diag (no_analysis_found word)]
      | _ => analyses
      end).

(** [analyze] with [room] frames left on the call stack where it calls
    [_recursive_split].  [RecursionError] in the [try] block leaves the call
    like any other exception. *)
Definition analyze_within (room : nat) (self : MorphAnalyzer) (sentences : str)
  : result (list analysis) :=
  match analyze_body_with (_recursive_split_within self room) self sentences with
  | Ok analyses => Ok analyses
  | Raise _ => Raise (TypeError cannot_catch)
  end.

(** One turn of the loop of [_recursive_split], for the prefix [part]. *)
Definition split_turn (recurse : str -> str -> result (list (list str)))
  (index : RuleIndex) (stem part rest : str) : result (list (list str)) :=
  match dict_get part index with
  | Some indexed =>
      valid <- some_rule_valid re_match stem indexed ;;
      if (valid : bool) then
        sub_results <- recurse (stem ++ part) rest ;;
        Ok (List.map (cons part) sub_results)
      else Ok []
  | None => Ok []
  end.

(** [parts] is a decomposition from [stem] on in which every part is a
    non-empty key of the index and some rule indexed under it has the
    condition ["."] or a condition that matches the stem followed by the
    parts before it. *)
Inductive accepted_split (index : RuleIndex) : str -> list str -> Prop :=
| accepted_nil (stem_ : str) : accepted_split index stem_ []
| accepted_cons (stem_ part : str) (rest : list str)
    (indexed : list AffixRule) (rule : AffixRule) :
    part <> [] ->
    dict_get part index = Some indexed ->
    In rule indexed ->
    condition_holds re_match stem_ rule ->
    accepted_split index (stem_ ++ part) rest ->
    accepted_split index stem_ (part :: rest).

End EngineWithin.


(* ------------------------------------------------------------------ *)
(** ** The strip step in the specification's words *)





(* ------------------------------------------------------------------ *)
(** * Properties *)

(** ** Strings and loops *)

Lemma chr_eqb_eq (a b : codepoint) : chr_eqb a b = true <-> a = b.
Proof. unfold chr_eqb. apply N.eqb_eq. Qed.

Lemma str_eqb_eq (a b : str) : str_eqb a b = true <-> a = b.
Proof.
  revert b. induction a as [|x a IH]; intros [|y b]; simpl; split; intro H;
    try reflexivity; try discriminate.
  - apply andb_true_iff in H as [Hx Ha].
    apply chr_eqb_eq in Hx. apply IH in Ha. now subst.
  - injection H as -> ->. apply andb_true_iff. split.
    + now apply chr_eqb_eq.
    + now apply IH.
Qed.

Lemma str_eqb_refl (a : str) : str_eqb a a = true.
Proof. now apply str_eqb_eq. Qed.

Lemma str_eqb_neq (a b : str) : str_eqb a b = false <-> a <> b.
Proof.
  split.
  - intros H E. apply str_eqb_eq in E. congruence.
  - intro H. destruct (str_eqb a b) eqn:E; [|reflexivity].
    apply str_eqb_eq in E. contradiction.
Qed.

Lemma str_mem_In (s : str) (l : list str) : str_mem s l = true <-> In s l.
Proof.
  unfold str_mem. rewrite existsb_exists. split.
  - intros (x & Hx & E). apply str_eqb_eq in E. now subst.
  - intro H. exists s. split; [assumption | apply str_eqb_refl].
Qed.

Lemma startswith_prefix (word root_ : str) :
  startswith word root_ = true <-> exists rest, word = root_ ++ rest.
Proof.
  revert word. induction root_ as [|r root_ IH]; intros [|w word]; simpl.
  - split; [intros _; now exists [] | reflexivity].
  - split; [intros _; now exists (w :: word) | reflexivity].
  - split; [discriminate | intros (rest & E); discriminate].
  - rewrite andb_true_iff, chr_eqb_eq, IH. split.
    + intros (-> & rest & ->). now exists rest.
    + intros (rest & E). injection E as -> ->. split; [reflexivity | now exists rest].
Qed.

Lemma split_char_not_nil (sep : codepoint) (s : str) : split_char sep s <> [].
Proof.
  induction s as [|c s IH]; simpl; [discriminate|].
  destruct (chr_eqb c sep); [discriminate|].
  destruct (split_char sep s); [contradiction | discriminate].
Qed.

Section ForEach.
Context {A B : Type}.
Variable body : A -> result (list B).

Lemma for_each_cons (a : A) (l : list A) (out : list B) :
  for_each body (a :: l) = Ok out ->
  exists o1 o2, body a = Ok o1 /\ for_each body l = Ok o2 /\ out = o1 ++ o2.
Proof.
  simpl. destruct (body a) as [o1|e]; simpl; [|discriminate].
  destruct (for_each body l) as [o2|e]; simpl; [|discriminate].
  intros [= <-]. now exists o1, o2.
Qed.

(** What a loop appended comes from one of its turns, and conversely. *)
Lemma for_each_In (l : list A) (out : list B) (x : B) :
  for_each body l = Ok out ->
  (In x out <-> exists a o, In a l /\ body a = Ok o /\ In x o).
Proof.
  revert out. induction l as [|a l IH]; intros out H.
  - injection H as <-. split; [contradiction | intros (a & o & [] & _)].
  - apply for_each_cons in H as (o1 & o2 & Ha & Hl & ->).
    rewrite in_app_iff, (IH o2 Hl). split.
    + intros [Hx | (a' & o & Hin & Hb & Hx)].
      * exists a, o1. simpl. auto.
      * exists a', o. simpl. auto.
    + intros (a' & o & [-> | Hin] & Hb & Hx).
      * left. congruence.
      * right. now exists a', o.
Qed.


Lemma for_each_Forall (P : B -> Prop) (l : list A) (out : list B) :
  (forall a o, In a l -> body a = Ok o -> Forall P o) ->
  for_each body l = Ok out -> Forall P out.
Proof.
  intros HP H. apply Forall_forall. intros x Hx.
  apply (for_each_In l out x H) in Hx as (a & o & Hin & Hb & Hxo).
  specialize (HP a o Hin Hb). rewrite Forall_forall in HP. now apply HP.
Qed.

Lemma for_each_nil : for_each body [] = Ok [].
Proof. reflexivity. Qed.

End ForEach.

(** ** The decomposer *)

Section Decomposer.
Variable re_match : str -> str -> result bool.

Lemma split_loop_unfold recurse index stem part rest :
  split_loop re_match recurse index stem part rest =
  (here <-
     match dict_get part index with
     | Some indexed =>
         valid <- some_rule_valid re_match stem indexed ;;
         if (valid : bool) then
           sub_results <- recurse (stem ++ part) rest ;;
           Ok (List.map (cons part) sub_results)
         else Ok []
     | None => Ok []
     end ;;
   more <-
     match rest with
     | [] => Ok []
     | c :: rest' => split_loop re_match recurse index stem (part ++ [c]) rest'
     end ;;
   Ok (here ++ more)).
Proof. destruct rest; reflexivity. Qed.

(** The candidates of one turn of the loop start with [part]. *)
Lemma split_loop_concat recurse index stem :
  forall rest part out,
    (forall stem' suffix res,
        (len suffix <= len rest)%nat ->
        recurse stem' suffix = Ok res ->
        forall candidate, In candidate res -> List.concat candidate = suffix) ->
    split_loop re_match recurse index stem part rest = Ok out ->
    forall candidate, In candidate out -> List.concat candidate = part ++ rest.
Proof.
  induction rest as [|c rest IH]; intros part out Hrec H candidate Hin;
    rewrite split_loop_unfold in H.
  - destruct (dict_get part index) as [indexed|]; simpl in H.
    + destruct (some_rule_valid re_match stem indexed) as [[|]|e]; simpl in H;
        try discriminate.
      * destruct (recurse (stem ++ part) []) as [res|e] eqn:Er; simpl in H;
          [|discriminate].
        injection H as <-. rewrite app_nil_r in Hin.
        apply in_map_iff in Hin as (sub & <- & Hsub).
        simpl. f_equal. eapply Hrec; eauto.
      * injection H as <-. contradiction.
    + injection H as <-. contradiction.
  - assert (Hmore : forall more,
               split_loop re_match recurse index stem (part ++ [c]) rest = Ok more ->
               forall cand, In cand more -> List.concat cand = part ++ c :: rest).
    { intros more Hm cand Hc.
      replace (part ++ c :: rest) with ((part ++ [c]) ++ rest)
        by now rewrite <- app_assoc.
      eapply IH; eauto.
      intros stem' suffix res Hle. apply Hrec. simpl in *. lia. }
    destruct (dict_get part index) as [indexed|]; simpl in H.
    + destruct (some_rule_valid re_match stem indexed) as [[|]|e]; simpl in H;
        try discriminate.
      * destruct (recurse (stem ++ part) (c :: rest)) as [res|e] eqn:Er;
          simpl in H; [|discriminate].
        destruct (split_loop re_match recurse index stem (part ++ [c]) rest)
          as [more|e] eqn:Em; simpl in H; [|discriminate].
        injection H as <-. apply in_app_iff in Hin as [Hin|Hin].
        -- apply in_map_iff in Hin as (sub & <- & Hsub).
           simpl. f_equal. eapply Hrec; eauto.
        -- eapply Hmore; eauto.
      * destruct (split_loop re_match recurse index stem (part ++ [c]) rest)
          as [more|e] eqn:Em; simpl in H; [|discriminate].
        injection H as <-. eapply Hmore; eauto.
    + destruct (split_loop re_match recurse index stem (part ++ [c]) rest)
        as [more|e] eqn:Em; simpl in H; [|discriminate].
      injection H as <-. eapply Hmore; eauto.
Qed.

Lemma recursive_split_concat_bounded (self : MorphAnalyzer) :
  forall n stem suffix res,
    (len suffix <= n)%nat ->
    _recursive_split re_match self stem suffix = Ok res ->
    forall candidate, In candidate res -> List.concat candidate = suffix.
Proof.
  induction n as [|n IH]; intros stem [|c rest] res Hlen H candidate Hin;
    simpl in *; try lia.
  - injection H as <-. destruct Hin as [<-|[]]. reflexivity.
  - injection H as <-. destruct Hin as [<-|[]]. reflexivity.
  - change (c :: rest) with ([c] ++ rest).
    eapply split_loop_concat; [|exact H|exact Hin].
    intros stem' suffix res' Hle. apply IH. lia.
Qed.

(** Every candidate the decomposer returns spells the suffix it split. *)
Lemma recursive_split_concat (self : MorphAnalyzer) (stem suffix : str) res :
  _recursive_split re_match self stem suffix = Ok res ->
  forall candidate, In candidate res -> List.concat candidate = suffix.
Proof. apply (recursive_split_concat_bounded self (len suffix)). lia. Qed.

(** The base case: the empty suffix has the empty candidate only. *)
Lemma recursive_split_empty (self : MorphAnalyzer) (stem : str) :
  _recursive_split re_match self stem [] = Ok [[]].
Proof. reflexivity. Qed.

End Decomposer.

(** ** The orchestrator *)

Section Orchestrator.
Variable re_match : str -> str -> result bool.

Lemma slice_to_neg_spec (n : nat) (s modified tail : str) :
  s = modified ++ tail -> len tail = Nat.min n (len s) ->
  slice_to_neg n s = modified.
Proof.
  intros -> Hlen. unfold slice_to_neg, len in *.
  rewrite length_app in *.
  replace (List.length modified + List.length tail - n)%nat
    with (List.length modified + 0)%nat by lia.
  rewrite firstn_app_2. simpl. now rewrite app_nil_r.
Qed.

Lemma slice_to_neg_tail (n : nat) (s : str) :
  exists tail, s = slice_to_neg n s ++ tail /\ len tail = Nat.min n (len s).
Proof.
  exists (skipn (len s - n) s). unfold slice_to_neg. split.
  - now rewrite firstn_skipn.
  - unfold len. rewrite length_skipn. lia.
Qed.

Lemma stripped_root_unique root_ rule m1 m2 :
  stripped_root re_match root_ rule m1 -> stripped_root re_match root_ rule m2 -> m1 = m2.
Proof.
  intros [(Hs & Hm & tail & E & Hl) | ([Hs|Hm] & ->)]
         [(Hs' & Hm' & tail' & E' & Hl') | ([Hs'|Hm'] & ->)];
    try congruence.
  rewrite <- (slice_to_neg_spec _ _ _ _ E Hl).
  now rewrite <- (slice_to_neg_spec _ _ _ _ E' Hl').
Qed.

Lemma apply_rule_stages self word root_ flag rule :
  apply_rule re_match self word root_ flag rule =
  (cond_ok <- check_condition re_match root_ rule ;;
   if negb cond_ok then Ok []
   else modified_root <- strip_step re_match root_ rule ;;
        emit re_match self word root_ flag rule modified_root).
Proof.
  unfold apply_rule, check_condition, strip_step, emit.
  destruct (strip rule); reflexivity.
Qed.

Lemma check_condition_spec root_ rule b :
  check_condition re_match root_ rule = Ok b -> (b = true <-> condition_holds re_match root_ rule).
Proof.
  unfold check_condition, condition_holds.
  destruct (str_eqb (cond rule) (u ".")) eqn:E.
  - apply str_eqb_eq in E. intros [= <-]. tauto.
  - apply str_eqb_neq in E. intros ->. split.
    + intros ->. now right.
    + intros [H|H]; congruence.
Qed.

Lemma strip_step_spec root_ rule modified_root :
  strip_step re_match root_ rule = Ok modified_root ->
  stripped_root re_match root_ rule modified_root.
Proof.
  unfold strip_step, stripped_root.
  destruct (strip rule) as [|s0 srest] eqn:Es.
  - intros [= <-]. right. auto.
  - destruct (re_match (s0 :: srest) root_) as [[|]|e]; simpl; try discriminate.
    + intros [= <-]. left. split; [discriminate|]. split; [reflexivity|].
      apply slice_to_neg_tail.
    + intros [= <-]. right. auto.
Qed.

(** The entries one rule contributes, when the step returns. *)
Lemma apply_rule_spec (self : MorphAnalyzer) (word root_ flag : str)
  (rule : AffixRule) (out : list analysis) :
  apply_rule re_match self word root_ flag rule = Ok out ->
  forall x,
    In x out <->
    exists modified_root splits possible_split,
      rule_match re_match word root_ rule modified_root /\
      _recursive_split re_match self modified_root (add rule) = Ok splits /\
      In possible_split splits /\
      x = Rec (mkRecord root_ (add rule) possible_split flag).
Proof.
  rewrite apply_rule_stages. unfold rule_match. intros H x.
  destruct (check_condition re_match root_ rule) as [cond_ok|e] eqn:Ec; simpl in H;
    [|discriminate].
  apply check_condition_spec in Ec.
  destruct cond_ok; simpl in H.
  - destruct (strip_step re_match root_ rule) as [m|e] eqn:Es; simpl in H; [|discriminate].
    apply strip_step_spec in Es. unfold emit in H.
    destruct (str_eqb (m ++ add rule) word) eqn:Ew.
    + apply str_eqb_eq in Ew.
      destruct (_recursive_split re_match self m (add rule)) as [splits|e] eqn:Er;
        simpl in H; [|discriminate].
      injection H as <-. rewrite in_map_iff. split.
      * intros (s & <- & Hin). exists m, splits, s.
        repeat split; try assumption. now apply Ec.
      * intros (m' & splits' & s & (_ & Hs' & _) & Hr' & Hin & ->).
        assert (m' = m) by (eapply stripped_root_unique; eauto). subst m'.
        rewrite Er in Hr'. injection Hr' as <-. now exists s.
    + apply str_eqb_neq in Ew. injection H as <-. split; [contradiction|].
      intros (m' & _ & _ & (_ & Hs' & Hw) & _).
      assert (m' = m) by (eapply stripped_root_unique; eauto). congruence.
  - injection H as <-. split; [contradiction|].
    intros (m' & _ & _ & (Hc & _) & _). apply Ec in Hc. discriminate.
Qed.

(** A step that returns has evaluated its patterns without error and has
    decomposed the suffix when the rule matched. *)
Lemma apply_rule_records (self : MorphAnalyzer) (word root_ flag : str)
  (rule : AffixRule) (out : list analysis) :
  apply_rule re_match self word root_ flag rule = Ok out ->
  Forall (fun x => exists r, x = Rec r) out.
Proof.
  intros H. apply Forall_forall. intros x Hx.
  apply (apply_rule_spec _ _ _ _ _ _ H) in Hx as (m & sp & s & _ & _ & _ & ->).
  eauto.
Qed.

Lemma for_each_body_ok {A B} (body : A -> result (list B)) l out a :
  for_each body l = Ok out -> In a l -> exists o, body a = Ok o.
Proof.
  revert out. induction l as [|a' l IH]; intros out H Hin; [contradiction|].
  apply for_each_cons in H as (o1 & o2 & Ha & Hl & ->).
  destruct Hin as [<-|Hin]; eauto.
Qed.

(** The entries one word contributes are the records that analyse it. *)
Lemma analyze_word_spec (self : MorphAnalyzer) (word : str) out :
  analyze_word re_match self word = Ok out ->
  forall x, In x out <-> exists r, x = Rec r /\ derives re_match self word r.
Proof.
  unfold analyze_word. intros H x. split.
  - intro Hx.
    apply (for_each_In _ _ _ x H) in Hx as ([root_ entry] & o1 & Hd & H1 & Hx).
    unfold apply_root in H1. simpl in H1.
    destruct (Nat.leb (len word) (len root_)) eqn:Elen;
      [injection H1 as <-; contradiction|].
    apply Nat.leb_gt in Elen.
    destruct (startswith word root_) eqn:Esw; simpl in H1;
      [|injection H1 as <-; contradiction].
    apply (for_each_In _ _ _ x H1) in Hx as (flag & o2 & Hf & H2 & Hx).
    unfold apply_flag in H2.
    destruct (dict_get flag (rules self)) as [flag_rules|] eqn:Eg;
      [|injection H2 as <-; contradiction].
    apply (for_each_In _ _ _ x H2) in Hx as (rule & o3 & Hr & H3 & Hx).
    apply (apply_rule_spec _ _ _ _ _ _ H3) in Hx
      as (m & splits & s & Hm & Hs & Hin & ->).
    eexists. split; [reflexivity|].
    exists entry, flag_rules, rule, m, splits. simpl. repeat split; auto.
    all: apply Hm.
  - intros (r & -> & entry & flag_rules & rule & m & splits &
            Hd & Hlen & Hsw & Hf & Hg & Hr & Hm & Hst & Hs & Hin).
    destruct (for_each_body_ok _ _ _ _ H Hd) as (o1 & H1).
    apply (for_each_In _ _ _ (Rec r) H). exists (root r, entry), o1.
    split; [assumption|]. split; [assumption|].
    unfold apply_root in H1. simpl in H1.
    apply Nat.leb_gt in Hlen. rewrite Hlen, Hsw in H1. simpl in H1.
    destruct (for_each_body_ok _ _ _ _ H1 Hf) as (o2 & H2).
    apply (for_each_In _ _ _ (Rec r) H1). exists (flag_number r), o2.
    split; [assumption|]. split; [assumption|].
    unfold apply_flag in H2. rewrite Hg in H2.
    destruct (for_each_body_ok _ _ _ _ H2 Hr) as (o3 & H3).
    apply (for_each_In _ _ _ (Rec r) H2). exists rule, o3.
    split; [assumption|]. split; [assumption|].
    apply (apply_rule_spec _ _ _ _ _ _ H3). exists m, splits, (suffixes r).
    repeat split; try assumption; try apply Hm.
    destruct r as [r0 st su fl]. simpl in *. now subst.
Qed.

(** What [analyze] returns when it returns: the entries of the words, or,
    when there is none, one message naming the last word. *)
Lemma analyze_returns_inv lower (self : MorphAnalyzer) (sentences : str) l :
  analyze re_match lower self sentences = Ok l ->
  exists analyses,
    for_each (analyze_word re_match self)
             (List.map lower (split_char 32 sentences)) = Ok analyses /\
    l = match analyses with
        | [] => [Diag (no_analysis_found
                         (last (List.map lower (split_char 32 sentences)) []))]
        | _ => analyses
        end.
Proof.
  unfold analyze, analyze_body.
  destruct (for_each _ _) as [analyses|e]; simpl; [|discriminate].
  intros [= <-]. now exists analyses.
Qed.

Lemma analyses_are_records (self : MorphAnalyzer) words analyses :
  for_each (analyze_word re_match self) words = Ok analyses ->
  forall x, In x analyses <->
            exists word r, In word words /\ x = Rec r /\
                           derives re_match self word r.
Proof.
  intros H x. rewrite (for_each_In _ _ _ x H). split.
  - intros (word & o & Hw & Ho & Hx).
    apply (analyze_word_spec _ _ _ Ho) in Hx as (r & -> & Hd). now exists word, r.
  - intros (word & r & Hw & -> & Hd).
    destruct (for_each_body_ok _ _ _ _ H Hw) as (o & Ho).
    exists word, o. repeat split; try assumption.
    apply (analyze_word_spec _ _ _ Ho). now exists r.
Qed.

(** The records of a result are the analyses of the input words. *)
Lemma analyze_records lower (self : MorphAnalyzer) (sentences : str) l :
  analyze re_match lower self sentences = Ok l ->
  forall r, In (Rec r) l <->
            exists word, In word (List.map lower (split_char 32 sentences)) /\
                         derives re_match self word r.
Proof.
  intros H r. apply analyze_returns_inv in H as (analyses & Hf & ->).
  pose proof (analyses_are_records _ _ _ Hf) as Hspec.
  destruct analyses as [|a rest].
  - split.
    + intros [E|[]]. discriminate.
    + intros (word & Hw & Hd). exfalso.
      apply (Hspec (Rec r)). now exists word, r.
  - rewrite Hspec. split.
    + intros (word & r' & Hw & [= <-] & Hd). now exists word.
    + intros (word & Hw & Hd). now exists word, r.
Qed.

End Orchestrator.

(** ** Returning normally *)

Lemma dict_get_In {V} (k : str) (d : list (str * V)) v :
  dict_get k d = Some v -> In (k, v) d.
Proof.
  induction d as [|[k' v'] d IH]; simpl; [discriminate|].
  destruct (str_eqb k k') eqn:E.
  - apply str_eqb_eq in E. intros [= <-]. left. now subst.
  - intro H. right. now apply IH.
Qed.

Section Totality.
Variable re_match : str -> str -> result bool.








(** With an empty dictionary every call returns the one message. *)
Lemma analyze_empty_dictionary lower flag_rules index sentences :
  analyze re_match lower (mkAnalyzer [] flag_rules index) sentences =
  Ok [Diag (no_analysis_found
              (last (List.map lower (split_char 32 sentences)) []))].
Proof.
  unfold analyze, analyze_body.
  assert (H : forall words,
             for_each (analyze_word re_match (mkAnalyzer [] flag_rules index)) words
             = Ok []).
  { induction words as [|w words IH]; [reflexivity|].
    simpl. rewrite IH. reflexivity. }
  rewrite H. reflexivity.
Qed.

End Totality.

(** ** The scorer *)

Lemma set_add_In (x y : str) (s : list str) :
  In y (set_add x s) <-> y = x \/ In y s.
Proof.
  unfold set_add. destruct (str_mem x s) eqn:E.
  - apply str_mem_In in E. split; [auto | intros [->|H]; assumption].
  - rewrite in_app_iff. simpl. split; intros [H|H]; auto.
    destruct H as [<-|[]]. now left.
Qed.

Lemma fold_set_add_In (l init : list str) (y : str) :
  In y (fold_left (fun known b => set_add b known) l init) <->
  In y init \/ In y l.
Proof.
  revert init. induction l as [|b l IH]; intro init; simpl.
  - tauto.
  - rewrite IH, set_add_In. split; intros [H|H]; auto.
    + destruct H as [->|H]; auto.
    + destruct H as [<-|H]; auto.
Qed.

Lemma add_is_true part rule :
  add_is part rule = true <-> add rule <> [] /\ part = add rule.
Proof.
  unfold add_is. destruct (add rule) as [|a rest] eqn:E.
  - split; [discriminate | intros (H & _); contradiction].
  - rewrite str_eqb_eq. split; [intro H; split; [discriminate|assumption] | tauto].
Qed.

Lemma fold_rule_adds_In (flag_rules : list AffixRule) (init : list str) (y : str) :
  In y (fold_left
          (fun known rule =>
             match add rule with
             | [] => known
             | _ => set_add (add rule) known
             end) flag_rules init) <->
  In y init \/ exists rule, In rule flag_rules /\ add_is y rule = true.
Proof.
  revert init. induction flag_rules as [|rule rest IH]; intro init; simpl.
  - split; [auto | intros [H|(r & [] & _)]; assumption].
  - rewrite IH. split.
    + intros [H|(r & Hr & Ha)].
      * destruct (add rule) as [|a t] eqn:E; [now left|].
        apply set_add_In in H as [->|H]; [|now left].
        right. exists rule. split; [now left|]. apply add_is_true.
        rewrite E. split; [discriminate|reflexivity].
      * right. exists r. auto.
    + intros [H|(r & [<-|Hr] & Ha)].
      * left. destruct (add rule); [assumption|]. apply set_add_In. now right.
      * left. apply add_is_true in Ha as (Hne & ->).
        destruct (add rule) as [|a t] eqn:E; [contradiction|].
        apply set_add_In. now left.
      * right. now exists r.
Qed.

Lemma fold_table_adds_In (table : RuleSet) (init : list str) (y : str) :
  In y (fold_left
          (fun known (item : str * list AffixRule) =>
             fold_left
               (fun known rule =>
                  match add rule with
                  | [] => known
                  | _ => set_add (add rule) known
                  end) (snd item) known) table init) <->
  In y init \/ exists rule, In rule (all_rules table) /\ add_is y rule = true.
Proof.
  revert init. induction table as [|item table IH]; intro init; simpl.
  - split; [auto | intros [H|(r & [] & _)]; assumption].
  - rewrite IH, fold_rule_adds_In. split.
    + intros [[H|(r & Hr & Ha)]|(r & Hr & Ha)]; auto.
      * right. exists r. split; [|assumption]. apply in_app_iff. now left.
      * right. exists r. split; [|assumption]. apply in_app_iff. now right.
    + intros [H|(r & Hr & Ha)]; auto.
      apply in_app_iff in Hr as [Hr|Hr].
      * left. right. now exists r.
      * right. now exists r.
Qed.

(** The set the scorer builds is the set of known suffixes. *)
Lemma known_suffixes_spec (self : MorphAnalyzer) (part : str) :
  str_mem part (known_suffixes self) = is_known self part.
Proof.
  apply eq_iff_eq_true. unfold known_suffixes, is_known.
  rewrite str_mem_In, fold_set_add_In, fold_table_adds_In.
  rewrite orb_true_iff, existsb_exists, str_mem_In.
  split.
  - intros [[[]|(r & Hr & Ha)]|H]; [left|right]; eauto.
  - intros [(r & Hr & Ha)|H]; [left; right|right]; eauto.
Qed.

Lemma score_part_shift known candidate (acc : Z) :
  fold_left (score_part known) candidate acc =
  (acc + fold_right Z.add 0 (List.map (part_value known) candidate))%Z.
Proof.
  revert acc. induction candidate as [|part rest IH]; intro acc; simpl.
  - lia.
  - rewrite IH. unfold score_part, part_value.
    destruct (str_mem part known); [lia|].
    destruct (Nat.eqb (len part) 1); lia.
Qed.

(** The score the loop accumulates is the sum of the part values plus one
    half per part. *)
Lemma candidate_score_spec known candidate :
  (candidate_score known candidate == spec_score known candidate)%Q.
Proof.
  unfold candidate_score, spec_score. rewrite score_part_shift.
  rewrite Z.add_0_l. ring.
Qed.

Section Sorting.
Local Open Scope Q_scope.

Lemma insert_desc_In (x y : keyed) (l : list keyed) :
  In y (insert_desc x l) <-> y = x \/ In y l.
Proof.
  induction l as [|z l IH]; simpl.
  - split; intros [H|H]; auto.
  - destruct (Qle_bool (fst z) (fst x)); simpl.
    + split; intros [H|H]; auto.
    + rewrite IH. split; intros [H|[H|H]]; auto.
Qed.

Lemma sort_desc_In (y : keyed) (l : list keyed) :
  In y (sort_desc l) <-> In y l.
Proof.
  induction l as [|x l IH]; simpl; [tauto|].
  rewrite insert_desc_In, IH. split; intros [H|H]; auto.
Qed.

Lemma insert_desc_head (x : keyed) (l : list keyed) :
  head_is_max l -> head_is_max (insert_desc x l).
Proof.
  destruct l as [|z l]; simpl; [intros _ y []|].
  intro Hz. destruct (Qle_bool (fst z) (fst x)) eqn:E; simpl.
  - apply Qle_bool_iff in E. intros y [<-|Hy]; [assumption|].
    apply Qle_trans with (fst z); auto.
  - assert (Hlt : fst x < fst z).
    { apply Qnot_le_lt. intro Hle. apply Qle_bool_iff in Hle. congruence. }
    intros y Hy. apply insert_desc_In in Hy as [->|Hy]; [|auto].
    now apply Qlt_le_weak.
Qed.

Lemma sort_desc_head (l : list keyed) : head_is_max (sort_desc l).
Proof.
  induction l as [|x l IH]; simpl; [exact I|]. now apply insert_desc_head.
Qed.

(** The sort is stable: the elements of one key keep their order. *)
Lemma insert_desc_filter (k : Q) (x : keyed) (l : list keyed) :
  filter (fun sc => Qeq_bool (fst sc) k) (insert_desc x l) =
  filter (fun sc => Qeq_bool (fst sc) k) (x :: l).
Proof.
  induction l as [|z l IH]; [reflexivity|].
  simpl insert_desc. destruct (Qle_bool (fst z) (fst x)) eqn:E; [reflexivity|].
  simpl filter at 1. rewrite IH. simpl.
  destruct (Qeq_bool (fst x) k) eqn:Ex, (Qeq_bool (fst z) k) eqn:Ez;
    try reflexivity.
  apply Qeq_bool_iff in Ex, Ez.
  assert (Hle : Qle_bool (fst z) (fst x) = true).
  { apply Qle_bool_iff. rewrite Ex, Ez. apply Qle_refl. }
  congruence.
Qed.

Lemma sort_desc_filter (k : Q) (l : list keyed) :
  filter (fun sc => Qeq_bool (fst sc) k) (sort_desc l) =
  filter (fun sc => Qeq_bool (fst sc) k) l.
Proof.
  induction l as [|x l IH]; [reflexivity|].
  simpl sort_desc. rewrite insert_desc_filter. simpl. now rewrite IH.
Qed.

Lemma filter_scored (score : list str -> Q) (k : Q) (l : list (list str)) :
  List.map snd
    (filter (fun sc : keyed => Qeq_bool (fst sc) k)
            (List.map (fun c => (score c, c)) l)) =
  filter (fun c => Qeq_bool (score c) k) l.
Proof.
  induction l as [|c l IH]; [reflexivity|].
  simpl. destruct (Qeq_bool (score c) k); simpl; now rewrite IH.
Qed.

(** The scorer keeps, in their order, the candidates no other candidate
    beats. *)
Lemma select_best_match_spec (self : MorphAnalyzer) (l : list (list str)) :
  _select_best_match self l = filter (is_best (known_suffixes self) l) l.
Proof.
  destruct l as [|c0 l0]; [reflexivity|].
  set (l := c0 :: l0). set (known := known_suffixes self).
  set (score := candidate_score known).
  unfold _select_best_match. fold l. fold known. fold score.
  change (match l with [] => [] | _ :: _ =>
            match sort_desc (List.map (fun c => (score c, c)) l) with
            | [] => []
            | (best_score, _) :: _ =>
                List.map snd
                  (filter (fun sc : keyed => Qeq_bool (fst sc) best_score)
                          (sort_desc (List.map (fun c => (score c, c)) l)))
            end
          end = filter (is_best known l) l).
  unfold l at 1.
  pose proof (sort_desc_head (List.map (fun c => (score c, c)) l)) as Hmax.
  pose proof (fun y => sort_desc_In y (List.map (fun c => (score c, c)) l)) as Hin.
  destruct (sort_desc (List.map (fun c => (score c, c)) l))
    as [|[best cb] sorted] eqn:Es.
  - exfalso. apply (Hin (score c0, c0)). now left.
  - rewrite <- Es, sort_desc_filter, filter_scored.
    simpl in Hmax.
    assert (Hbest_in : exists c, In c l /\ score c = best).
    { assert (H : In (best, cb) (List.map (fun c => (score c, c)) l))
        by (apply Hin; now left).
      apply in_map_iff in H as (c & [= <- <-] & Hc). now exists c. }
    assert (Hall : forall c, In c l -> score c <= best).
    { intros c Hc.
      assert (H : In (score c, c) ((best, cb) :: sorted)).
      { apply Hin. apply in_map_iff. now exists c. }
      destruct H as [[= <- _]|H]; [apply Qle_refl|].
      apply (Hmax _ H). }
    apply filter_ext_in. intros c Hc. apply eq_iff_eq_true.
    unfold is_best. rewrite forallb_forall. fold score. split.
    + intros E other Ho. apply Qeq_bool_iff in E. apply Qle_bool_iff.
      rewrite E. now apply Hall.
    + intro H. apply Qeq_bool_iff. apply Qle_antisym; [now apply Hall|].
      destruct Hbest_in as (c' & Hc' & <-). apply Qle_bool_iff. now apply H.
Qed.

End Sorting.

(** ** The loaders *)

Lemma load_dic_cases (fs : Dataloader.filesystem) (p : Dataloader.path) :
  Dataloader.load_dic fs p =
  match fs p with
  | Dataloader.Absent | Dataloader.Unreadable => Ok (Some [])
  | Dataloader.Content [] => Raise StopIteration
  | Dataloader.Content (_ :: rest) =>
      Ok (Some (fold_left Dataloader.dic_line rest []))
  end.
Proof.
  unfold Dataloader.load_dic, Dataloader.open_.
  destruct (fs p) as [| |[|header rest]]; reflexivity.
Qed.

Lemma load_aff_cases (fs : Dataloader.filesystem) (p : Dataloader.path) :
  Dataloader.load_aff fs p =
  match fs p with
  | Dataloader.Absent | Dataloader.Unreadable => Ok (Some [])
  | Dataloader.Content lines =>
      Ok (Some (fold_left Dataloader.aff_line lines []))
  end.
Proof.
  unfold Dataloader.load_aff, Dataloader.open_.
  destruct (fs p); reflexivity.
Qed.

Lemma load_dic_outcome (fs : Dataloader.filesystem) (p : Dataloader.path) :
  (exists d, Dataloader.load_dic fs p = Ok (Some d)) \/
  Dataloader.load_dic fs p = Raise StopIteration.
Proof.
  rewrite load_dic_cases. destruct (fs p) as [| |[|header rest]]; eauto.
Qed.

Lemma load_aff_outcome (fs : Dataloader.filesystem) (p : Dataloader.path) :
  exists r, Dataloader.load_aff fs p = Ok (Some r).
Proof. rewrite load_aff_cases. destruct (fs p); eauto. Qed.

(** ** The rule index *)

Lemma all_rules_In (table : list (str * list AffixRule)) (rule : AffixRule) :
  In rule (all_rules table) <->
  exists key table_rules, In (key, table_rules) table /\ In rule table_rules.
Proof.
  unfold all_rules. rewrite in_flat_map. split.
  - intros ([key trs] & Hin & Hr). now exists key, trs.
  - intros (key & trs & Hin & Hr). now exists (key, trs).
Qed.

Lemma dict_set_In {V} (k key : str) (v v' : V) (d : list (str * V)) :
  In (key, v') (dict_set k v d) -> v' = v \/ In (key, v') d.
Proof.
  induction d as [|[k0 v0] d IH]; simpl.
  - intros [[= _ <-]|[]]. now left.
  - destruct (str_eqb k k0); simpl.
    + intros [[= _ <-]|H]; auto.
    + intros [H|H]; auto. destruct (IH H); auto.
Qed.

Lemma dict_append_rules (k : str) (x rule : AffixRule) (d : RuleIndex) :
  In rule (all_rules (dict_append k x d)) -> rule = x \/ In rule (all_rules d).
Proof.
  rewrite !all_rules_In. intros (key & trs & Hin & Hr). unfold dict_append in Hin.
  destruct (dict_get k d) as [xs|] eqn:Eg.
  - apply dict_set_In in Hin as [->|Hin].
    + apply in_app_iff in Hr as [Hr|[<-|[]]]; [|now left].
      right. exists k, xs. split; [now apply dict_get_In | assumption].
    + right. now exists key, trs.
  - apply dict_set_In in Hin as [->|Hin].
    + destruct Hr as [<-|[]]. now left.
    + right. now exists key, trs.
Qed.





(* ------------------------------------------------------------------ *)
(** * The claims *)

Section Claims.
Import Examples.

(** C1 (the code departs from the claim): a word without analysis gets no
    message of its own.  On ["zzz gördim"] the result is the record of
    ["gördim"] alone, with nothing for ["zzz"]; on ["zzz yyy"] it is one
    message, naming the last word only. *)
Theorem unmatched_word_gets_no_message :
  analyze PyLib.re_match PyLib.lower (gor_analyzer rule_dim) (u "zzz gördim")
  = Ok [Rec record_dim]
  /\
  analyze PyLib.re_match PyLib.lower (gor_analyzer rule_dim) (u "zzz yyy")
  = Ok [Diag (no_analysis_found (u "yyy"))].
Proof. split; vm_compute; reflexivity. Qed.

(** C2, as stated, fails: with the rule [strip="g", add="rdim", cond="."]
    the word ["gördim"] gets the record with root ["gör"] and stem
    ["rdim"], and root + stem is not the word. *)
Lemma strip_rule_breaks_root_plus_stem :
  exists l r,
    analyze PyLib.re_match PyLib.lower (gor_analyzer rule_strip) (u "gördim")
    = Ok l /\
    In (Rec r) l /\
    root r ++ stem r <> u "gördim".
Proof.
  exists [Rec record_strip], record_strip. split; [vm_compute; reflexivity|].
  split; [now left|]. vm_compute. discriminate.
Qed.

(** C2, amended: every record [r] that [analyze] emits comes from an input
    word [w] and a rule of the record's flag such that [r.stem] is the
    rule's [add] and the stripped root followed by [r.stem] is [w]; when the
    rule's strip is empty or its pattern does not match the root,
    [r.root + r.stem] is [w]. *)
Theorem record_spells_word_from_stripped_root
  (re_match : str -> str -> result bool) (lower : str -> str)
  (self : MorphAnalyzer) (sentences : str) (l : list analysis)
  (r : AnalysisRecord) :
  analyze re_match lower self sentences = Ok l ->
  In (Rec r) l ->
  exists w flag_rules rule modified_root,
    In w (List.map lower (split_char 32 sentences)) /\
    dict_get (flag_number r) (rules self) = Some flag_rules /\
    In rule flag_rules /\
    stem r = add rule /\
    stripped_root re_match (root r) rule modified_root /\
    modified_root ++ stem r = w /\
    (strip rule = [] \/ re_match (strip rule) (root r) = Ok false ->
     root r ++ stem r = w).
Proof.
  intros H Hin.
  apply (analyze_records _ _ _ _ _ H) in Hin
    as (w & Hw & entry & flag_rules & rule & m & splits &
        _ & _ & _ & _ & Hg & Hr & (_ & Hs & He) & Hst & _ & _).
  exists w, flag_rules, rule, m. rewrite Hst.
  repeat split; try assumption.
  intros Hno. destruct Hs as [(Hne & Hm & _)|(_ & ->)]; [|assumption].
  destruct Hno; congruence.
Qed.

Lemma record_spells_word_from_stripped_root_witness :
  exists w flag_rules rule modified_root,
    In w (List.map PyLib.lower (split_char 32 (u "gördim"))) /\
    dict_get (flag_number record_strip) (rules (gor_analyzer rule_strip))
    = Some flag_rules /\
    In rule flag_rules /\
    stem record_strip = add rule /\
    stripped_root PyLib.re_match (root record_strip) rule modified_root /\
    modified_root ++ stem record_strip = w /\
    (strip rule = [] \/
     PyLib.re_match (strip rule) (root record_strip) = Ok false ->
     root record_strip ++ stem record_strip = w).
Proof.
  apply (record_spells_word_from_stripped_root
           PyLib.re_match PyLib.lower (gor_analyzer rule_strip) (u "gördim")
           [Rec record_strip] record_strip).
  - vm_compute. reflexivity.
  - simpl. left. reflexivity.
Defined.

(** The rule-matching step, exactly: the entries a rule contributes are the
    records of the decompositions of its [add] when the rule matches, and
    nothing otherwise; the stripped root is the root without its last
    [len(rule.strip)] characters when the strip is present and its pattern
    matches, the root otherwise. *)
Lemma rule_matching_step_exact
  (re_match : str -> str -> result bool)
  (self : MorphAnalyzer) (word root_ flag : str) (rule : AffixRule)
  (out : list analysis) :
  apply_rule re_match self word root_ flag rule = Ok out ->
  (forall x,
     In x out <->
     exists modified_root splits possible_split,
       rule_match re_match word root_ rule modified_root /\
       _recursive_split re_match self modified_root (add rule) = Ok splits /\
       In possible_split splits /\
       x = Rec (mkRecord root_ (add rule) possible_split flag))
  /\
  (forall modified_root base,
     stripped_root re_match root_ rule modified_root ->
     strip rule <> [] ->
     re_match (strip rule) root_ = Ok true ->
     root_ = base ++ strip rule ->
     modified_root = base).
Proof.
  intro H. split; [exact (apply_rule_spec re_match self _ _ _ _ _ H)|].
  intros m base [(_ & _ & tail & E & Hl)|([Hs|Hm] & _)] Hne Hmatch Hroot;
    try congruence.
  rewrite <- (slice_to_neg_spec _ _ _ _ E Hl).
  apply slice_to_neg_spec with (tail := strip rule); [assumption|].
  rewrite Hroot. unfold len. rewrite length_app. lia.
Qed.

(** C4: every candidate the decomposer returns, concatenated, is the suffix
    it was given; hence in every record [analyze] emits the suffixes,
    concatenated in order, are the stem. *)
Theorem suffixes_spell_stem
  (re_match : str -> str -> result bool) (lower : str -> str)
  (self : MorphAnalyzer) :
  (forall stem_ suffix res candidate,
     _recursive_split re_match self stem_ suffix = Ok res ->
     In candidate res -> List.concat candidate = suffix)
  /\
  (forall sentences l r,
     analyze re_match lower self sentences = Ok l ->
     In (Rec r) l -> List.concat (suffixes r) = stem r).
Proof.
  split.
  - intros stem_ suffix res candidate H.
    exact (recursive_split_concat re_match self stem_ suffix res H candidate).
  - intros sentences l r H Hin.
    apply (analyze_records _ _ _ _ _ H) in Hin
      as (w & _ & entry & flag_rules & rule & m & splits &
          _ & _ & _ & _ & _ & _ & _ & Hst & Hs & Hin).
    rewrite Hst. eapply recursive_split_concat; eauto.
Qed.

Lemma suffixes_spell_stem_witness :
  List.concat (suffixes record_dim) = stem record_dim.
Proof.
  apply (proj2 (suffixes_spell_stem PyLib.re_match PyLib.lower
                  (gor_analyzer rule_dim))
               (u "gördim") [Rec record_dim] record_dim).
  - vm_compute. reflexivity.
  - simpl. left. reflexivity.
Defined.

(** C5: with the dictionary [{"gör": {flags: {"F1"}}}] and the one rule
    [F1: strip="", add="dim", cond="."], [analyze("gördim")] returns exactly
    one record, with root ["gör"], stem ["dim"] and flag ["F1"], whatever
    the regular-expression engine, [lower] leaving the word as it is. *)
Theorem analyze_gordim
  (re_match : str -> str -> result bool) (lower : str -> str) :
  lower (u "gördim") = u "gördim" ->
  analyze re_match lower (gor_analyzer rule_dim) (u "gördim")
  = Ok [Rec (mkRecord (u "gör") (u "dim") [u "dim"] (u "F1"))].
Proof.
  intro Hlower. unfold analyze, analyze_body.
  change (split_char 32 (u "gördim")) with [u "gördim"].
  simpl List.map. rewrite Hlower. vm_compute. reflexivity.
Qed.

Lemma analyze_gordim_witness :
  analyze PyLib.re_match PyLib.lower (gor_analyzer rule_dim) (u "gördim")
  = Ok [Rec (mkRecord (u "gör") (u "dim") [u "dim"] (u "F1"))].
Proof.
  apply (analyze_gordim PyLib.re_match PyLib.lower). vm_compute. reflexivity.
Defined.

(** C6: the set the scorer builds holds the non-empty [add] texts of the
    rules and the letters y, n, s, m, k, z, l; the score of a candidate is
    the sum over its parts of +10 for a known part, -1 for an unknown part
    of length 1 and -5 otherwise, plus one half per part; the scorer returns
    the candidates that reach the maximum score, all of them and in their
    order, and the empty list for the empty list. *)
Theorem select_best_match_scoring (self : MorphAnalyzer) :
  (forall part, str_mem part (known_suffixes self) = is_known self part)
  /\
  (forall candidate,
     (candidate_score (known_suffixes self) candidate
      == spec_score (known_suffixes self) candidate)%Q)
  /\
  (forall candidates,
     _select_best_match self candidates
     = filter (is_best (known_suffixes self) candidates) candidates)
  /\
  _select_best_match self [] = [].
Proof.
  split; [apply known_suffixes_spec|].
  split; [intro; apply candidate_score_spec|].
  split; [apply select_best_match_spec | reflexivity].
Qed.


(** C8: wherever [load_dic] and [load_aff] return, they return a mapping,
    never [None]; [load_aff] always returns and [load_dic] raises in one
    case only, [StopIteration].  So [__init__] never takes the branch that
    raises [ValueError]: it returns an analyzer or passes [StopIteration]
    on, and with both tables empty it returns the empty analyzer. *)
Theorem loaders_return_mappings :
  (forall fs p,
     (exists d, Dataloader.load_dic fs p = Ok (Some d)) \/
     Dataloader.load_dic fs p = Raise StopIteration)
  /\
  (forall fs p, exists r, Dataloader.load_aff fs p = Ok (Some r))
  /\
  (forall fs root_path,
     (exists analyzer, MorphAnalyzer__init__ fs root_path = Ok analyzer) \/
     MorphAnalyzer__init__ fs root_path = Raise StopIteration)
  /\
  (forall fs root_path,
     Dataloader.load_dic fs (root_path ++ "/data/tr_TR.dic")%string
     = Ok (Some []) ->
     Dataloader.load_aff fs (root_path ++ "/data/tr_TR.aff")%string
     = Ok (Some []) ->
     MorphAnalyzer__init__ fs root_path = Ok (mkAnalyzer [] [] [])).
Proof.
  split; [apply load_dic_outcome|].
  split; [apply load_aff_outcome|].
  split.
  - intros fs root_path. unfold MorphAnalyzer__init__.
    destruct (load_dic_outcome fs (root_path ++ "/data/tr_TR.dic")%string)
      as [(d & ->)| ->]; [|now right].
    destruct (load_aff_outcome fs (root_path ++ "/data/tr_TR.aff")%string)
      as (r & ->).
    left. simpl. eauto.
  - intros fs root_path Hd Ha. unfold MorphAnalyzer__init__.
    rewrite Hd, Ha. reflexivity.
Qed.

Lemma loaders_return_mappings_witness :
  MorphAnalyzer__init__ no_files "/srv"%string = Ok (mkAnalyzer [] [] []).
Proof.
  apply (proj2 (proj2 (proj2 loaders_return_mappings)) no_files "/srv"%string);
    reflexivity.
Defined.

(** C9: for a path that does not exist [load_dic] does not raise and
    returns the empty mapping; an analyzer holding the empty dictionary
    answers every call with one message and no record. *)
Theorem missing_dictionary_degrades
  (fs : Dataloader.filesystem) (p : Dataloader.path) :
  fs p = Dataloader.Absent ->
  Dataloader.load_dic fs p = Ok (Some [])
  /\
  forall (re_match : str -> str -> result bool) (lower : str -> str)
         (flag_rules : RuleSet) (index : RuleIndex) (sentences : str),
  exists word,
    analyze re_match lower (mkAnalyzer [] flag_rules index) sentences
    = Ok [Diag (no_analysis_found word)].
Proof.
  intro H. split.
  - rewrite load_dic_cases, H. reflexivity.
  - intros re_match lower flag_rules index sentences.
    eexists. apply analyze_empty_dictionary.
Qed.

Lemma missing_dictionary_degrades_witness :
  Dataloader.load_dic no_files "/srv/data/tr_TR.dic"%string = Ok (Some [])
  /\
  forall (re_match : str -> str -> result bool) (lower : str -> str)
         (flag_rules : RuleSet) (index : RuleIndex) (sentences : str),
  exists word,
    analyze re_match lower (mkAnalyzer [] flag_rules index) sentences
    = Ok [Diag (no_analysis_found word)].
Proof.
  apply (missing_dictionary_degrades no_files "/srv/data/tr_TR.dic"%string).
  reflexivity.
Defined.

(** C10: for a dictionary file that exists and has no line, [load_dic]
    does not return the empty mapping: [next(f)] raises [StopIteration],
    the handler for [OSError] does not catch it, and it reaches the
    caller. *)
Theorem empty_dictionary_file_raises
  (fs : Dataloader.filesystem) (p : Dataloader.path) :
  fs p = Dataloader.Content [] ->
  is_OSError StopIteration = false /\
  Dataloader.load_dic fs p = Raise StopIteration.
Proof.
  intro H. split; [reflexivity|]. rewrite load_dic_cases, H. reflexivity.
Qed.

Lemma empty_dictionary_file_raises_witness :
  is_OSError StopIteration = false /\
  Dataloader.load_dic empty_files "/srv/data/tr_TR.dic"%string
  = Raise StopIteration.
Proof.
  apply (empty_dictionary_file_raises empty_files "/srv/data/tr_TR.dic"%string).
  reflexivity.
Defined.

End Claims.

(* ------------------------------------------------------------------ *)
(** * Further properties *)

(** ** Dictionaries *)

Lemma dict_get_set_same {V} (k : str) (v : V) (d : list (str * V)) :
  dict_get k (dict_set k v d) = Some v.
Proof.
  induction d as [|[k0 v0] d IH]; simpl.
  - now rewrite str_eqb_refl.
  - destruct (str_eqb k k0) eqn:E; simpl; now rewrite E.
Qed.

Lemma dict_get_set_other {V} (k k' : str) (v : V) (d : list (str * V)) :
  k' <> k -> dict_get k' (dict_set k v d) = dict_get k' d.
Proof.
  intro Hne. induction d as [|[k0 v0] d IH]; simpl.
  - apply str_eqb_neq in Hne. now rewrite Hne.
  - destruct (str_eqb k k0) eqn:E; simpl.
    + apply str_eqb_eq in E. subst k0. apply str_eqb_neq in Hne.
      now rewrite Hne.
    + destruct (str_eqb k' k0); [reflexivity | exact IH].
Qed.

Lemma dict_get_None {V} (k : str) (d : list (str * V)) :
  dict_get k d = None <-> ~ In k (keys d).
Proof.
  induction d as [|[k0 v0] d IH]; simpl.
  - tauto.
  - destruct (str_eqb k k0) eqn:E.
    + apply str_eqb_eq in E. split; [discriminate | intro H; exfalso; auto].
    + apply str_eqb_neq in E. rewrite IH. split.
      * intros H [H'|H']; [congruence | contradiction].
      * intros H H'. apply H. now right.
Qed.

Lemma dict_set_keys {V} (k : str) (v : V) (d : list (str * V)) :
  keys (dict_set k v d) =
  match dict_get k d with
  | Some _ => keys d
  | None => keys d ++ [k]
  end.
Proof.
  unfold keys. induction d as [|[k0 v0] d IH]; simpl; [reflexivity|].
  destruct (str_eqb k k0) eqn:E; simpl; [reflexivity|].
  rewrite IH. now destruct (dict_get k d).
Qed.

Lemma dict_set_NoDup {V} (k : str) (v : V) (d : list (str * V)) :
  NoDup (keys d) -> NoDup (keys (dict_set k v d)).
Proof.
  intro H. rewrite dict_set_keys. destruct (dict_get k d) eqn:E; [assumption|].
  apply dict_get_None in E.
  apply NoDup_app; [assumption | constructor; [intros []|constructor] |].
  intros x Hx [<-|[]]. contradiction.
Qed.

Lemma dict_set_Forall {V} (P : str * V -> Prop) (k : str) (v : V)
  (d : list (str * V)) :
  Forall P d -> P (k, v) -> Forall P (dict_set k v d).
Proof.
  intros Hd Hv. induction d as [|[k0 v0] d IH]; simpl.
  - now constructor.
  - inversion Hd as [|? ? H0 Hd']; subst.
    destruct (str_eqb k k0) eqn:E.
    + apply str_eqb_eq in E. subst k0. now constructor.
    + constructor; [assumption | now apply IH].
Qed.

(** ** Splitting text *)

Lemma split_char_chars (sep c : codepoint) (s part : str) :
  In part (split_char sep s) -> In c part -> In c s /\ c <> sep.
Proof.
  revert part. induction s as [|x s IH]; intros part Hp Hc; simpl in Hp.
  - destruct Hp as [<-|[]]. contradiction.
  - destruct (chr_eqb x sep) eqn:E.
    + destruct Hp as [<-|Hp]; [contradiction|].
      destruct (IH part Hp Hc). split; [now right | assumption].
    + destruct (split_char sep s) as [|w ws] eqn:Es.
      * destruct Hp as [<-|[]]. destruct Hc as [<-|[]].
        split; [now left|]. intro H. apply chr_eqb_eq in H. congruence.
      * destruct Hp as [<-|Hp].
        -- destruct Hc as [<-|Hc].
           ++ split; [now left|]. intro H. apply chr_eqb_eq in H. congruence.
           ++ destruct (IH w (or_introl eq_refl) Hc). split; [now right|assumption].
        -- destruct (IH part (or_intror Hp) Hc). split; [now right|assumption].
Qed.

Lemma split_char_hd (sep : codepoint) (s : str) :
  In (hd [] (split_char sep s)) (split_char sep s).
Proof.
  pose proof (split_char_not_nil sep s) as H.
  destruct (split_char sep s); [contradiction | now left].
Qed.

Lemma set_of_list_In (x : str) (l : list str) :
  In x (set_of_list l) <-> In x l.
Proof.
  induction l as [|y l IH]; simpl; [tauto|].
  destruct (str_mem y l) eqn:E.
  - apply str_mem_In in E. rewrite IH. split; [auto|].
    intros [<-|H]; assumption.
  - simpl. rewrite IH. tauto.
Qed.

Lemma set_of_list_NoDup (l : list str) : NoDup (set_of_list l).
Proof.
  induction l as [|y l IH]; simpl; [constructor|].
  destruct (str_mem y l) eqn:E; [assumption|].
  constructor; [|assumption]. rewrite set_of_list_In.
  intro H. apply str_mem_In in H. congruence.
Qed.

Lemma split_ws_aux_tokens (cur s : str) :
  no_space cur ->
  Forall (fun token => token <> [] /\ no_space token) (split_ws_aux cur s).
Proof.
  revert cur. induction s as [|c s IH]; intros cur Hcur; simpl.
  - destruct cur as [|x cur]; constructor; [|constructor]. split.
    + intro H. apply (f_equal (@List.length _)) in H.
      rewrite length_rev in H. discriminate.
    + intros y Hy. apply in_rev in Hy. now apply Hcur.
  - destruct (is_space c) eqn:E.
    + assert (Hnil : no_space []) by (intros y []).
      destruct cur as [|x cur]; [now apply IH|].
      constructor; [|now apply IH]. split.
      * intro H. apply (f_equal (@List.length _)) in H.
        rewrite length_rev in H. discriminate.
      * intros y Hy. apply in_rev in Hy. now apply Hcur.
    + apply IH. intros y [<-|Hy]; [assumption | now apply Hcur].
Qed.

Lemma split_ws_tokens (s : str) :
  Forall (fun token => token <> [] /\ no_space token) (split_ws s).
Proof. apply split_ws_aux_tokens. intros y []. Qed.

(** ** The dictionary loader, line by line *)

Lemma dic_line_cases (dictionary : Lexicon) (line : str) :
  Dataloader.dic_line dictionary line =
  if dic_line_kept line
  then dict_set (dic_line_root line)
                (mkEntry (u "root") (dic_line_flags line) true) dictionary
  else dictionary.
Proof.
  unfold Dataloader.dic_line, dic_line_kept, dic_line_root, dic_line_flags.
  destruct (strip_ws line) as [|c rest]; [reflexivity|].
  destruct (split_char 47 (c :: rest)) as [|w [|f parts]]; reflexivity.
Qed.

Lemma dic_lines_preserve_other (w : str) (lines : list str) (d : Lexicon) :
  (forall l, In l lines -> dic_line_kept l = true -> dic_line_root l <> w) ->
  dict_get w (fold_left Dataloader.dic_line lines d) = dict_get w d.
Proof.
  revert d. induction lines as [|l lines IH]; intros d H; simpl; [reflexivity|].
  rewrite IH by (intros; apply H; [now right|assumption]).
  rewrite dic_line_cases. destruct (dic_line_kept l) eqn:E; [|reflexivity].
  apply dict_get_set_other. intro Hw. symmetry in Hw. revert Hw.
  apply H; [now left|assumption].
Qed.

Lemma dic_line_root_no_slash (line : str) : ~ In 47 (dic_line_root line).
Proof.
  unfold dic_line_root. intro H.
  destruct (split_char_chars 47 47 _ _ (split_char_hd 47 (strip_ws line)) H).
  congruence.
Qed.

Lemma dic_line_flags_clean (line flag : str) :
  In flag (dic_line_flags line) -> ~ In 44 flag /\ ~ In 47 flag.
Proof.
  unfold dic_line_flags.
  destruct (split_char 47 (strip_ws line)) as [|w [|ft parts]] eqn:E;
    try contradiction.
  rewrite set_of_list_In. intro Hf. split; intro Hc.
  - destruct (split_char_chars 44 44 _ _ Hf Hc). congruence.
  - destruct (split_char_chars 44 47 _ _ Hf Hc) as (Hin & _).
    assert (Hft : In ft (split_char 47 (strip_ws line)))
      by (rewrite E; right; now left).
    destruct (split_char_chars 47 47 _ _ Hft Hin). congruence.
Qed.

Lemma dic_lines_invariant (lines : list str) (d : Lexicon) :
  NoDup (keys d) -> Forall entry_well_formed d ->
  NoDup (keys (fold_left Dataloader.dic_line lines d)) /\
  Forall entry_well_formed (fold_left Dataloader.dic_line lines d).
Proof.
  revert d. induction lines as [|l lines IH]; intros d Hk Hd; simpl; [auto|].
  rewrite dic_line_cases. destruct (dic_line_kept l); [|now apply IH].
  apply IH.
  - now apply dict_set_NoDup.
  - apply dict_set_Forall; [assumption|].
    unfold entry_well_formed. simpl. repeat split.
    + unfold dic_line_flags.
      destruct (split_char 47 (strip_ws l)) as [|w [|ft parts]];
        try constructor. apply set_of_list_NoDup.
    + apply dic_line_root_no_slash.
    + now apply (dic_line_flags_clean l flag).
    + now apply (dic_line_flags_clean l flag).
Qed.

(** ** The affix loader, line by line *)

Lemma zero_or_token (token : str) :
  token <> [] /\ no_space token ->
  (if str_eqb token (u "0") then [] else token) <> u "0" /\
  no_space (if str_eqb token (u "0") then [] else token).
Proof.
  intros (Hne & Hns). destruct (str_eqb token (u "0")) eqn:E.
  - split; [discriminate | intros c []].
  - apply str_eqb_neq in E. auto.
Qed.

(** A line either leaves the rule set as it is, or appends one well-formed
    rule under its flag. *)
Lemma aff_line_cases (line : str) :
  (is_sfx_rule_line line = false /\
   forall rules, Dataloader.aff_line rules line = rules)
  \/
  (is_sfx_rule_line line = true /\
   exists flag rule,
     (forall rules, Dataloader.aff_line rules line = dict_append flag rule rules) /\
     flag <> [] /\ no_space flag /\ rule_well_formed rule).
Proof.
  unfold is_sfx_rule_line, Dataloader.aff_line.
  pose proof (split_ws_tokens line) as Htok.
  destruct (split_ws line) as [|marker rest]; [left; auto|].
  destruct (str_eqb marker (u "SFX")) eqn:Em.
  - destruct rest as [|flag [|strip0 [|add0 [|condition rest]]]];
      try (left; split; [reflexivity | intro; reflexivity]).
    right. split; [reflexivity|].
    inversion Htok as [|? ? _ H1]; subst.
    inversion H1 as [|? ? (Hf & Hfs) H2]; subst.
    inversion H2 as [|? ? Hs H3]; subst.
    inversion H3 as [|? ? Ha H4]; subst.
    inversion H4 as [|? ? (Hc & Hcs) _]; subst.
    eexists flag, _. split; [intro; reflexivity|].
    split; [assumption|]. split; [assumption|].
    destruct (zero_or_token _ Hs), (zero_or_token _ Ha).
    unfold rule_well_formed. simpl. auto 10.
  - left. split; [|intro; reflexivity].
    destruct rest as [|? [|? [|? [|? ?]]]]; reflexivity.
Qed.

Lemma dict_append_cons {A} (k k0 : str) (x : A) (v0 : list A)
  (d : list (str * list A)) :
  dict_append k x ((k0, v0) :: d) =
  if str_eqb k k0 then (k0, v0 ++ [x]) :: d
  else (k0, v0) :: dict_append k x d.
Proof.
  unfold dict_append. simpl. destruct (str_eqb k k0) eqn:E.
  - simpl. rewrite ?E. reflexivity.
  - destruct (dict_get k d); simpl; rewrite ?E; reflexivity.
Qed.

Lemma dict_append_length (k : str) (x : AffixRule) (d : RuleSet) :
  List.length (all_rules (dict_append k x d)) = S (List.length (all_rules d)).
Proof.
  unfold all_rules. induction d as [|[k0 v0] d IH].
  - reflexivity.
  - rewrite dict_append_cons. destruct (str_eqb k k0); simpl.
    + rewrite !length_app. simpl. lia.
    + rewrite !length_app, IH. lia.
Qed.

Lemma dict_append_NoDup {A} (k : str) (x : A) (d : list (str * list A)) :
  NoDup (keys d) -> NoDup (keys (dict_append k x d)).
Proof.
  unfold dict_append. destruct (dict_get k d); apply dict_set_NoDup.
Qed.

Lemma dict_append_Forall {A} (P : str * list A -> Prop) (k : str) (x : A)
  (d : list (str * list A)) :
  Forall P d -> (forall old, P (k, old ++ [x])) -> Forall P (dict_append k x d).
Proof.
  intros Hd Hx. unfold dict_append.
  destruct (dict_get k d) as [old|]; apply dict_set_Forall; auto.
  apply (Hx []).
Qed.

Lemma all_rules_Forall (P : AffixRule -> Prop) (k : str) (x : AffixRule)
  (d : RuleSet) :
  Forall P (all_rules d) -> P x -> Forall P (all_rules (dict_append k x d)).
Proof.
  intros Hd Hx. apply Forall_forall. intros rule Hr.
  apply dict_append_rules in Hr as [->|Hr]; [assumption|].
  rewrite Forall_forall in Hd. now apply Hd.
Qed.

Lemma aff_lines_invariant (lines : list str) (rules : RuleSet) :
  NoDup (keys rules) ->
  Forall rule_well_formed (all_rules rules) ->
  Forall (fun item => fst item <> [] /\ no_space (fst item) /\ snd item <> [])
         rules ->
  NoDup (keys (fold_left Dataloader.aff_line lines rules)) /\
  Forall rule_well_formed (all_rules (fold_left Dataloader.aff_line lines rules)) /\
  Forall (fun item => fst item <> [] /\ no_space (fst item) /\ snd item <> [])
         (fold_left Dataloader.aff_line lines rules).
Proof.
  revert rules. induction lines as [|l lines IH]; intros rules Hk Hr Hf; simpl;
    [auto|].
  destruct (aff_line_cases l) as [(_ & ->)|(_ & flag & rule & -> & Hne & Hns & Hw)];
    [now apply IH|].
  apply IH.
  - now apply dict_append_NoDup.
  - now apply all_rules_Forall.
  - apply dict_append_Forall; [assumption|]. intro old. simpl.
    repeat split; try assumption. now destruct old.
Qed.

Lemma aff_lines_count (lines : list str) (rules : RuleSet) :
  List.length (all_rules (fold_left Dataloader.aff_line lines rules)) =
  (List.length (all_rules rules)
   + List.length (filter is_sfx_rule_line lines))%nat.
Proof.
  revert rules. induction lines as [|l lines IH]; intro rules; simpl; [lia|].
  rewrite IH.
  destruct (aff_line_cases l) as [(-> & ->)|(-> & flag & rule & -> & _)].
  - reflexivity.
  - rewrite dict_append_length. simpl. lia.
Qed.

(** ** The loaders on whole files *)

Section LoaderProperties.
Import Dataloader.

(** X1: the last line that names a root decides its entry: when a kept line
    is followed by no kept line naming the same root, the loaded dictionary
    maps that root to the entry of that line, whatever came before. *)
Theorem load_dic_last_entry_wins (fs : filesystem) (p : path)
  (header : str) (before : list str) (line : str) (after : list str) :
  fs p = Content (header :: before ++ line :: after) ->
  dic_line_kept line = true ->
  (forall l, In l after -> dic_line_kept l = true ->
             dic_line_root l <> dic_line_root line) ->
  exists d,
    load_dic fs p = Ok (Some d) /\
    dict_get (dic_line_root line) d
    = Some (mkEntry (u "root") (dic_line_flags line) true).
Proof.
  intros Hfs Hkept Hafter. rewrite load_dic_cases, Hfs.
  eexists. split; [reflexivity|].
  rewrite fold_left_app. simpl.
  rewrite dic_lines_preserve_other by assumption.
  rewrite dic_line_cases, Hkept. apply dict_get_set_same.
Qed.

Lemma load_dic_last_entry_wins_witness :
  exists d,
    load_dic (fun _ => Content [u "2"; u "gör/F1"; u "gör/F2,F3"; u "  "])
             "tr_TR.dic"%string = Ok (Some d) /\
    dict_get (dic_line_root (u "gör/F2,F3")) d
    = Some (mkEntry (u "root") (dic_line_flags (u "gör/F2,F3")) true).
Proof.
  apply (load_dic_last_entry_wins
           (fun _ => Content [u "2"; u "gör/F1"; u "gör/F2,F3"; u "  "])
           "tr_TR.dic"%string (u "2") [u "gör/F1"] (u "gör/F2,F3") [u "  "]).
  - reflexivity.
  - vm_compute. reflexivity.
  - intros l [<-|[]] H. vm_compute in H. discriminate.
Defined.

(** X2: a root that no kept line after the first names is not in the loaded
    dictionary; the first line of the file is skipped even when it reads as
    an entry, and blank lines add nothing. *)
Theorem load_dic_unnamed_root_absent (fs : filesystem) (p : path)
  (header : str) (lines : list str) (w : str) :
  fs p = Content (header :: lines) ->
  (forall l, In l lines -> dic_line_kept l = true -> dic_line_root l <> w) ->
  exists d, load_dic fs p = Ok (Some d) /\ dict_get w d = None.
Proof.
  intros Hfs H. rewrite load_dic_cases, Hfs. eexists. split; [reflexivity|].
  now rewrite dic_lines_preserve_other.
Qed.

Lemma load_dic_unnamed_root_absent_witness :
  exists d,
    load_dic (fun _ => Content [u "gör/F1"; u ""; u "gel/F2"])
             "tr_TR.dic"%string = Ok (Some d) /\
    dict_get (u "gör") d = None.
Proof.
  apply (load_dic_unnamed_root_absent
           (fun _ => Content [u "gör/F1"; u ""; u "gel/F2"])
           "tr_TR.dic"%string (u "gör/F1") [u ""; u "gel/F2"] (u "gör")).
  - reflexivity.
  - intros l [<-|[<-|[]]] H; vm_compute in H |- *; discriminate.
Defined.

Lemma load_dic_invariant (fs : filesystem) (p : path) (d : Lexicon) :
  load_dic fs p = Ok (Some d) ->
  NoDup (keys d) /\ Forall entry_well_formed d.
Proof.
  rewrite load_dic_cases.
  destruct (fs p) as [| |[|header lines]]; intros [= <-];
    try (split; constructor).
  apply dic_lines_invariant; constructor.
Qed.

Lemma load_aff_invariant (fs : filesystem) (p : path) (rules : RuleSet) :
  load_aff fs p = Ok (Some rules) ->
  NoDup (keys rules) /\
  Forall rule_well_formed (all_rules rules) /\
  Forall (fun item => fst item <> [] /\ no_space (fst item) /\ snd item <> [])
         rules.
Proof.
  rewrite load_aff_cases.
  destruct (fs p) as [| |lines]; intros [= <-];
    try (repeat split; constructor).
  apply aff_lines_invariant; constructor.
Qed.

(** X3: in every dictionary [load_dic] returns the roots are distinct, no
    root contains a slash, every entry has type ["root"] and [bool] true,
    and its flags are distinct and contain neither comma nor slash. *)
Theorem load_dic_well_formed (fs : filesystem) (p : path) (d : Lexicon) :
  load_dic fs p = Ok (Some d) ->
  NoDup (keys d) /\ Forall entry_well_formed d.
Proof. apply load_dic_invariant. Qed.

Lemma load_dic_well_formed_witness :
  NoDup (keys [(u "gör", mkEntry (u "root") [u "F2"; u "F1"] true)]) /\
  Forall entry_well_formed [(u "gör", mkEntry (u "root") [u "F2"; u "F1"] true)].
Proof.
  apply (load_dic_well_formed
           (fun _ => Content [u "1"; u "gör/F1"; u " gör/F1,F2,F1"])
           "tr_TR.dic"%string).
  vm_compute. reflexivity.
Defined.

(** X4: in every rule set [load_aff] returns the flags are distinct,
    non-empty and without white space, every flag has at least one rule, and
    every rule has a non-empty condition, a strip and an add that are never
    the text ["0"], and no white space in any field. *)
Theorem load_aff_well_formed (fs : filesystem) (p : path) (rules : RuleSet) :
  load_aff fs p = Ok (Some rules) ->
  NoDup (keys rules) /\
  Forall rule_well_formed (all_rules rules) /\
  Forall (fun item => fst item <> [] /\ no_space (fst item) /\ snd item <> [])
         rules.
Proof. apply load_aff_invariant. Qed.

Lemma load_aff_well_formed_witness :
  NoDup (keys [(u "F1", [mkRule [] (u "dim") (u ".")])]) /\
  Forall rule_well_formed (all_rules [(u "F1", [mkRule [] (u "dim") (u ".")])]) /\
  Forall (fun item => fst item <> [] /\ no_space (fst item) /\ snd item <> [])
         [(u "F1", [mkRule [] (u "dim") (u ".")])].
Proof.
  apply (load_aff_well_formed
           (fun _ => Content [u "SET UTF-8"; u "SFX F1 Y 1"; u "SFX F1 0 dim ."])
           "tr_TR.aff"%string).
  vm_compute. reflexivity.
Defined.

(** X5: [load_aff] keeps one rule for each line whose first token is [SFX]
    and that has at least five tokens, and nothing for any other line: the
    number of rules loaded is the number of such lines. *)
Theorem load_aff_rule_count (fs : filesystem) (p : path) (lines : list str) :
  fs p = Content lines ->
  exists rules,
    load_aff fs p = Ok (Some rules) /\
    List.length (all_rules rules)
    = List.length (filter is_sfx_rule_line lines).
Proof.
  intro Hfs. rewrite load_aff_cases, Hfs. eexists. split; [reflexivity|].
  now rewrite aff_lines_count.
Qed.

Lemma load_aff_rule_count_witness :
  exists rules,
    load_aff (fun _ => Content [u "SET UTF-8"; u "SFX F1 Y 1"; u "SFX F1 0 dim ."])
             "tr_TR.aff"%string = Ok (Some rules) /\
    List.length (all_rules rules)
    = List.length (filter is_sfx_rule_line
                          [u "SET UTF-8"; u "SFX F1 Y 1"; u "SFX F1 0 dim ."]).
Proof.
  apply (load_aff_rule_count
           (fun _ => Content [u "SET UTF-8"; u "SFX F1 Y 1"; u "SFX F1 0 dim ."])
           "tr_TR.aff"%string).
  reflexivity.
Defined.

End LoaderProperties.

(** ** The rule index, exactly *)

Lemma build_reverse_rules_flat (table : RuleSet) (idx : RuleIndex) :
  fold_left
    (fun idx (item : str * list AffixRule) =>
       fold_left (fun idx rule => dict_append (add rule) rule idx) (snd item) idx)
    table idx
  = fold_left (fun idx rule => dict_append (add rule) rule idx)
              (all_rules table) idx.
Proof.
  revert idx. induction table as [|item table IH]; intro idx; simpl;
    [reflexivity|].
  unfold all_rules in *. now rewrite fold_left_app, IH.
Qed.

Lemma dict_get_append_same {A} (k : str) (x : A) (d : list (str * list A)) :
  dict_get k (dict_append k x d)
  = Some (match dict_get k d with Some old => old | None => [] end ++ [x]).
Proof.
  unfold dict_append. destruct (dict_get k d); apply dict_get_set_same.
Qed.

Lemma dict_get_append_other {A} (k k' : str) (x : A) (d : list (str * list A)) :
  k' <> k -> dict_get k' (dict_append k x d) = dict_get k' d.
Proof.
  intro H. unfold dict_append.
  destruct (dict_get k d); now apply dict_get_set_other.
Qed.

(** [idx] maps every text to the rules of [done] with that [add], in order,
    and to nothing when there is none. *)
Lemma index_step_exact (idx : RuleIndex) (done : list AffixRule)
  (rule : AffixRule) :
  (forall k, dict_get k idx =
             match filter (fun r => str_eqb k (add r)) done with
             | [] => None
             | rs => Some rs
             end) ->
  forall k, dict_get k (dict_append (add rule) rule idx) =
            match filter (fun r => str_eqb k (add r)) (done ++ [rule]) with
            | [] => None
            | rs => Some rs
            end.
Proof.
  intros Inv k. rewrite filter_app. simpl.
  destruct (str_eqb k (add rule)) eqn:E.
  - apply str_eqb_eq in E. subst k. rewrite dict_get_append_same, Inv.
    destruct (filter _ done) as [|r rs]; reflexivity.
  - apply str_eqb_neq in E. rewrite dict_get_append_other by assumption.
    rewrite Inv, app_nil_r. reflexivity.
Qed.

Lemma index_fold_exact (l done : list AffixRule) (idx : RuleIndex) :
  (forall k, dict_get k idx =
             match filter (fun r => str_eqb k (add r)) done with
             | [] => None
             | rs => Some rs
             end) ->
  forall k,
    dict_get k (fold_left (fun idx rule => dict_append (add rule) rule idx) l idx)
    = match filter (fun r => str_eqb k (add r)) (done ++ l) with
      | [] => None
      | rs => Some rs
      end.
Proof.
  revert done idx. induction l as [|rule l IH]; intros done idx Inv k; simpl.
  - now rewrite app_nil_r.
  - replace (done ++ rule :: l) with ((done ++ [rule]) ++ l)
      by now rewrite <- app_assoc.
    apply IH. now apply index_step_exact.
Qed.

Lemma index_fold_NoDup (l : list AffixRule) (idx : RuleIndex) :
  NoDup (keys idx) ->
  NoDup (keys (fold_left (fun idx rule => dict_append (add rule) rule idx) l idx)).
Proof.
  revert idx. induction l as [|rule l IH]; intros idx H; simpl; [assumption|].
  apply IH. now apply dict_append_NoDup.
Qed.

Lemma index_fold_length (l : list AffixRule) (idx : RuleIndex) :
  List.length
    (all_rules (fold_left (fun idx rule => dict_append (add rule) rule idx) l idx))
  = (List.length (all_rules idx) + List.length l)%nat.
Proof.
  revert idx. induction l as [|rule l IH]; intro idx; simpl; [lia|].
  rewrite IH, dict_append_length. lia.
Qed.

Lemma index_exact (table : RuleSet) (k : str) :
  dict_get k (_build_reverse_rules table) =
  match filter (fun rule => str_eqb k (add rule)) (all_rules table) with
  | [] => None
  | indexed => Some indexed
  end.
Proof.
  unfold _build_reverse_rules. rewrite build_reverse_rules_flat.
  apply (index_fold_exact (all_rules table) [] []). reflexivity.
Qed.

(** Under a key the index holds rules of the rule set with that [add], and
    every rule of the rule set is under its [add]. *)
Lemma index_get_In (table : RuleSet) (k : str) (indexed : list AffixRule)
  (rule : AffixRule) :
  dict_get k (_build_reverse_rules table) = Some indexed ->
  (In rule indexed <-> In rule (all_rules table) /\ add rule = k).
Proof.
  rewrite index_exact. intro H.
  assert (E : indexed = filter (fun r => str_eqb k (add r)) (all_rules table)).
  { destruct (filter _ (all_rules table)); [discriminate | congruence]. }
  rewrite E, filter_In, str_eqb_eq. intuition congruence.
Qed.


(** X6: the index maps every text to exactly the rules of the rule set
    whose [add] is that text, in the order of the rule set, and has no key
    for a text that no rule adds. *)
Theorem build_reverse_rules_exact (table : RuleSet) (k : str) :
  dict_get k (_build_reverse_rules table) =
  match filter (fun rule => str_eqb k (add rule)) (all_rules table) with
  | [] => None
  | indexed => Some indexed
  end.
Proof. apply index_exact. Qed.

(** X7: the keys of the index are distinct and the index holds every rule of
    the rule set once: it has as many rules as the rule set. *)
Theorem build_reverse_rules_size (table : RuleSet) :
  NoDup (keys (_build_reverse_rules table)) /\
  List.length (all_rules (_build_reverse_rules table))
  = List.length (all_rules table).
Proof.
  unfold _build_reverse_rules. rewrite build_reverse_rules_flat. split.
  - apply index_fold_NoDup. constructor.
  - now rewrite index_fold_length.
Qed.

(** ** The decomposer, exactly *)

Lemma bind_Ok {A B} (m : result A) (k : A -> result B) (b : B) :
  bind m k = Ok b -> exists a, m = Ok a /\ k a = Ok b.
Proof. destruct m as [a|e]; simpl; [eauto | discriminate]. Qed.

Section DecomposerExact.
Variable re_match : str -> str -> result bool.

(** What one turn of the loop contributes for its prefix [part]. *)
Lemma split_turn_spec (recurse : str -> str -> result (list (list str)))
  (index : RuleIndex) (stem part rest : str) (here : list (list str)) :
  (match dict_get part index with
   | Some indexed =>
       valid <- some_rule_valid re_match stem indexed ;;
       if (valid : bool) then
         sub_results <- recurse (stem ++ part) rest ;;
         Ok (List.map (cons part) sub_results)
       else Ok []
   | None => Ok []
   end) = Ok here ->
  forall candidate,
    In candidate here <->
    exists indexed sub_results tail_,
      dict_get part index = Some indexed /\
      some_rule_valid re_match stem indexed = Ok true /\
      recurse (stem ++ part) rest = Ok sub_results /\
      In tail_ sub_results /\ candidate = part :: tail_.
Proof.
  intros H candidate.
  destruct (dict_get part index) as [indexed|].
  - apply bind_Ok in H as (valid & Hv & H). destruct valid.
    + apply bind_Ok in H as (sub & Hs & [= <-]). rewrite in_map_iff. split.
      * intros (t & <- & Ht). now exists indexed, sub, t.
      * intros (i' & sub' & t & [= <-] & _ & Hs' & Ht & ->).
        rewrite Hs in Hs'. injection Hs' as <-. now exists t.
    + injection H as <-. split; [contradiction|].
      intros (i' & sub' & t & [= <-] & Hv' & _). congruence.
  - injection H as <-. split; [contradiction|].
    intros (i' & sub' & t & Hd & _). discriminate.
Qed.

Lemma split_turn_complete (recurse : str -> str -> result (list (list str)))
  (index : RuleIndex) (stem part rest : str) (here : list (list str)) indexed :
  (match dict_get part index with
   | Some indexed =>
       valid <- some_rule_valid re_match stem indexed ;;
       if (valid : bool) then
         sub_results <- recurse (stem ++ part) rest ;;
         Ok (List.map (cons part) sub_results)
       else Ok []
   | None => Ok []
   end) = Ok here ->
  dict_get part index = Some indexed ->
  some_rule_valid re_match stem indexed = Ok true ->
  exists sub_results, recurse (stem ++ part) rest = Ok sub_results.
Proof.
  intros H Hd Hv. rewrite Hd in H. apply bind_Ok in H as (valid & Hv' & H).
  rewrite Hv in Hv'. injection Hv' as <-.
  apply bind_Ok in H as (sub & Hs & _). now exists sub.
Qed.

Lemma split_loop_spec (recurse : str -> str -> result (list (list str)))
  (index : RuleIndex) (stem : str) :
  forall rest part out,
    (forall stem' suffix res,
        (len suffix <= len rest)%nat ->
        recurse stem' suffix = Ok res ->
        forall candidate,
          In candidate res <->
          valid_split re_match index stem' candidate /\
          List.concat candidate = suffix) ->
    part <> [] ->
    split_loop re_match recurse index stem part rest = Ok out ->
    forall candidate,
      In candidate out <->
      exists pre post tail_,
        rest = pre ++ post /\
        candidate = (part ++ pre) :: tail_ /\
        valid_split re_match index stem candidate /\
        List.concat tail_ = post.
Proof.
  induction rest as [|c rest IH]; intros part out Hrec Hne H candidate;
    rewrite split_loop_unfold in H;
    apply bind_Ok in H as (here & Hhere & H);
    apply bind_Ok in H as (more & Hmore & [= <-]);
    pose proof (split_turn_spec _ _ _ _ _ _ Hhere candidate) as Hturn;
    rewrite in_app_iff, Hturn.
  - injection Hmore as <-. split.
    + intros [(indexed & sub & t & Hd & Hv & Hs & Ht & ->)|[]].
      apply (Hrec _ _ _ (le_n _) Hs) in Ht as (Hvalid & Hc).
      exists [], [], t. rewrite !app_nil_r. repeat split; try assumption.
      econstructor; eauto.
    + intros (pre & post & t & Hrest & -> & Hvalid & Hc). left.
      symmetry in Hrest. apply app_eq_nil in Hrest as (-> & ->).
      rewrite app_nil_r in *.
      inversion Hvalid as [|? ? ? indexed _ Hd Hv Ht]; subst.
      destruct (split_turn_complete _ _ _ _ _ _ _ Hhere Hd Hv) as (sub & Hs).
      exists indexed, sub, t. rewrite ?app_nil_r.
      repeat split; try assumption.
      apply (Hrec _ _ _ (le_n _) Hs). auto.
  - assert (Hrec' : forall stem' suffix res,
               (len suffix <= len rest)%nat ->
               recurse stem' suffix = Ok res ->
               forall candidate,
                 In candidate res <->
                 valid_split re_match index stem' candidate /\
                 List.concat candidate = suffix).
    { intros stem' suffix res Hle. apply Hrec. simpl. lia. }
    assert (Hne' : part ++ [c] <> []) by (destruct part; discriminate).
    pose proof (IH (part ++ [c]) more Hrec' Hne' Hmore candidate) as Hm.
    rewrite Hm. split.
    + intros [(indexed & sub & t & Hd & Hv & Hs & Ht & ->)
             |(pre & post & t & -> & -> & Hvalid & Hc)].
      * apply (Hrec _ _ _ (le_n _) Hs) in Ht as (Hvalid & Hc).
        exists [], (c :: rest), t. rewrite !app_nil_r.
        repeat split; try assumption. econstructor; eauto.
      * exists (c :: pre), post, t. rewrite <- app_assoc in *. simpl in *.
        auto.
    + intros (pre & post & t & Hrest & -> & Hvalid & Hc).
      destruct pre as [|c' pre].
      * left. simpl in Hrest. subst post. rewrite app_nil_r in *.
        inversion Hvalid as [|? ? ? indexed _ Hd Hv Ht]; subst.
        destruct (split_turn_complete _ _ _ _ _ _ _ Hhere Hd Hv) as (sub & Hs).
        exists indexed, sub, t. rewrite ?app_nil_r.
        repeat split; try assumption.
        apply (Hrec _ _ _ (le_n _) Hs). auto.
      * right. injection Hrest as <- ->.
        exists pre, post, t. rewrite <- app_assoc. simpl. auto.
Qed.

Lemma recursive_split_spec_bounded (self : MorphAnalyzer) :
  forall n stem suffix res,
    (len suffix <= n)%nat ->
    _recursive_split re_match self stem suffix = Ok res ->
    forall candidate,
      In candidate res <->
      valid_split re_match (rules_by_add self) stem candidate /\
      List.concat candidate = suffix.
Proof.
  induction n as [|n IH]; intros stem suffix res Hlen H candidate.
  - destruct suffix; [|simpl in Hlen; lia]. injection H as <-. split.
    + intros [<-|[]]. split; [constructor|reflexivity].
    + intros (Hv & Hc). left.
      destruct Hv as [|? part rest ? Hne]; [reflexivity|].
      destruct part; [contradiction|discriminate].
  - destruct suffix as [|c rest].
    + injection H as <-. split.
      * intros [<-|[]]. split; [constructor|reflexivity].
      * intros (Hv & Hc). left.
        destruct Hv as [|? part rest ? Hne]; [reflexivity|].
        destruct part; [contradiction|discriminate].
    + simpl in H.
      assert (Hrec : forall stem' suffix res,
                 (len suffix <= len rest)%nat ->
                 _recursive_split re_match self stem' suffix = Ok res ->
                 forall candidate,
                   In candidate res <->
                   valid_split re_match (rules_by_add self) stem' candidate /\
                   List.concat candidate = suffix).
      { intros stem' suffix res' Hle. apply IH. simpl in Hlen. lia. }
      rewrite (split_loop_spec _ _ _ rest [c] res Hrec ltac:(discriminate) H).
      split.
      * intros (pre & post & t & -> & -> & Hv & <-). split; [assumption|].
        simpl. reflexivity.
      * intros (Hv & Hc).
        destruct Hv as [|stem_ part t indexed Hne Hd Hvr Ht]; [discriminate|].
        destruct part as [|c' pre]; [contradiction|].
        simpl in Hc. injection Hc as -> <-.
        exists pre, (List.concat t), t. repeat split.
        econstructor; eauto.
Qed.

End DecomposerExact.

Section DecomposerAccepts.
Variable re_match : str -> str -> result bool.

(** When the loop that sets [valid] returns, it says whether some indexed
    rule has the condition ["."] or a condition matching the stem. *)
Lemma some_rule_valid_inv (stem_ : str) (indexed : list AffixRule) (valid : bool) :
  some_rule_valid re_match stem_ indexed = Ok valid ->
  (valid = true <->
   exists rule, In rule indexed /\ condition_holds re_match stem_ rule).
Proof.
  revert valid. induction indexed as [|r rest IH]; intros valid H; simpl in H.
  - injection H as <-. split; [discriminate | intros (rule & [] & _)].
  - destruct (str_eqb (cond r) (u ".")) eqn:E.
    + apply str_eqb_eq in E. injection H as <-. split; [|reflexivity].
      intros _. exists r. split; [now left | now left].
    + apply str_eqb_neq in E.
      apply bind_Ok in H as (m & Hm & H). destruct m.
      * injection H as <-. split; [|reflexivity].
        intros _. exists r. split; [now left | now right].
      * rewrite (IH valid H). split.
        -- intros (rule & Hin & Hc). exists rule. split; [now right|assumption].
        -- intros (rule & [<-|Hin] & Hc); [|now exists rule].
           destruct Hc as [Hc|Hc]; congruence.
Qed.

Lemma valid_split_accepted (index : RuleIndex) (stem_ : str)
  (candidate : list str) :
  valid_split re_match index stem_ candidate ->
  accepted_split re_match index stem_ candidate.
Proof.
  induction 1 as [|stem_ part rest indexed Hne Hd Hv _ IH]; [constructor|].
  destruct (proj1 (some_rule_valid_inv _ _ _ Hv) eq_refl) as (rule & Hin & Hc).
  now apply accepted_cons with (indexed := indexed) (rule := rule).
Qed.

Lemma split_loop_turns (recurse : str -> str -> result (list (list str)))
  (index : RuleIndex) (stem : str) :
  forall pre post part out,
    split_loop re_match recurse index stem part (pre ++ post) = Ok out ->
    exists here,
      split_turn re_match recurse index stem (part ++ pre) post = Ok here /\
      forall candidate, In candidate here -> In candidate out.
Proof.
  induction pre as [|c pre IH]; intros post part out H;
    rewrite split_loop_unfold in H;
    apply bind_Ok in H as (here & Hh & H);
    apply bind_Ok in H as (more & Hm & [= <-]).
  - exists here. rewrite app_nil_r. split; [exact Hh|].
    intros candidate Hc. apply in_app_iff. now left.
  - simpl in Hm. destruct (IH post (part ++ [c]) more Hm) as (here' & Ht & Hin).
    exists here'. rewrite <- app_assoc in Ht. split; [exact Ht|].
    intros candidate Hc. apply in_app_iff. right. now apply Hin.
Qed.

(** Every decomposition that is accepted and spells the suffix is among the
    candidates, when the decomposer returns. *)
Lemma accepted_split_found (self : MorphAnalyzer) (stem_ : str)
  (candidate : list str) :
  accepted_split re_match (rules_by_add self) stem_ candidate ->
  forall suffix res,
    _recursive_split re_match self stem_ suffix = Ok res ->
    List.concat candidate = suffix ->
    In candidate res.
Proof.
  induction 1 as [|stem_ part rest indexed rule Hne Hd Hin Hc _ IH];
    intros suffix res H E.
  - simpl in E. subst suffix. injection H as <-. now left.
  - destruct part as [|c pre]; [contradiction|].
    simpl in E. subst suffix. simpl in H.
    destruct (split_loop_turns _ _ _ pre (List.concat rest) [c] res H)
      as (here & Ht & Hincl).
    apply Hincl. unfold split_turn in Ht. simpl app in Ht. rewrite Hd in Ht.
    apply bind_Ok in Ht as (valid & Hv & Ht).
    assert (valid = true) as ->.
    { apply (some_rule_valid_inv _ _ _ Hv). now exists rule. }
    apply bind_Ok in Ht as (sub & Hs & [= <-]).
    apply in_map. now apply (IH (List.concat rest) sub).
Qed.

End DecomposerAccepts.

(** X8: the decomposer returns exactly the decompositions it accepts: a
    list of parts is a candidate if and only if the parts spell the suffix,
    every part is a non-empty key of the index, and for every part some rule
    indexed under it has the condition ["."] or a condition matching the
    stem followed by the parts before it. *)
Theorem recursive_split_exact
  (re_match : str -> str -> result bool) (self : MorphAnalyzer)
  (stem_ suffix : str) (res : list (list str)) :
  _recursive_split re_match self stem_ suffix = Ok res ->
  forall candidate,
    In candidate res <->
    accepted_split re_match (rules_by_add self) stem_ candidate /\
    List.concat candidate = suffix.
Proof.
  intros H candidate. split.
  - intro Hin.
    apply (recursive_split_spec_bounded re_match self (len suffix) _ _ _
             (le_n _) H) in Hin as (Hv & Hc).
    split; [now apply valid_split_accepted | assumption].
  - intros (Ha & Hc). now apply (accepted_split_found re_match self stem_
                                  candidate Ha suffix res).
Qed.

Lemma recursive_split_exact_witness :
  In [u "dim"] [[u "dim"]] <->
  accepted_split PyLib.re_match
                 (rules_by_add (Examples.gor_analyzer Examples.rule_dim))
                 (u "gör") [u "dim"] /\
  List.concat [u "dim"] = u "dim".
Proof.
  apply (recursive_split_exact PyLib.re_match
           (Examples.gor_analyzer Examples.rule_dim) (u "gör") (u "dim")
           [[u "dim"]]).
  vm_compute. reflexivity.
Defined.

(** ** The candidates of the decomposer *)

Lemma valid_split_parts re_match index stem_ candidate :
  valid_split re_match index stem_ candidate ->
  Forall (fun part => part <> [] /\
                      exists indexed, dict_get part index = Some indexed)
         candidate.
Proof.
  induction 1; constructor; eauto.
Qed.

Lemma NoDup_map_cons {A} (a : A) (l : list (list A)) :
  NoDup l -> NoDup (List.map (cons a) l).
Proof.
  induction 1 as [|x l Hx Hl IH]; simpl; constructor; [|assumption].
  rewrite in_map_iff. intros (y & [= ->] & Hy). contradiction.
Qed.

Section DecomposerNoDup.
Variable re_match : str -> str -> result bool.

Lemma split_loop_NoDup (recurse : str -> str -> result (list (list str)))
  (index : RuleIndex) (stem : str) :
  forall rest part out,
    (forall stem' suffix res,
        (len suffix <= len rest)%nat ->
        recurse stem' suffix = Ok res ->
        (forall candidate,
            In candidate res <->
            valid_split re_match index stem' candidate /\
            List.concat candidate = suffix) /\
        NoDup res) ->
    part <> [] ->
    split_loop re_match recurse index stem part rest = Ok out ->
    NoDup out.
Proof.
  induction rest as [|c rest IH]; intros part out Hrec Hne H;
    pose proof H as Hout;
    rewrite split_loop_unfold in H;
    apply bind_Ok in H as (here & Hhere & H);
    apply bind_Ok in H as (more & Hmore & [= <-]).
  - injection Hmore as <-. rewrite app_nil_r.
    destruct (dict_get part index) as [indexed|]; [|injection Hhere as <-; constructor].
    apply bind_Ok in Hhere as ([|] & Hv & Hhere);
      [|injection Hhere as <-; constructor].
    apply bind_Ok in Hhere as (sub & Hs & [= <-]).
    apply NoDup_map_cons.
    apply (Hrec _ _ _ (le_n _) Hs).
  - assert (Hrec' : forall stem' suffix res,
               (len suffix <= len rest)%nat ->
               recurse stem' suffix = Ok res ->
               (forall candidate,
                   In candidate res <->
                   valid_split re_match index stem' candidate /\
                   List.concat candidate = suffix) /\
               NoDup res).
    { intros stem' suffix res Hle. apply Hrec. simpl. lia. }
    assert (Hne' : part ++ [c] <> []) by (destruct part; discriminate).
    apply NoDup_app.
    + destruct (dict_get part index) as [indexed|];
        [|injection Hhere as <-; constructor].
      apply bind_Ok in Hhere as ([|] & Hv & Hhere);
        [|injection Hhere as <-; constructor].
      apply bind_Ok in Hhere as (sub & Hs & [= <-]).
      apply NoDup_map_cons.
      apply (Hrec _ _ _ (le_n _) Hs).
    + apply (IH (part ++ [c]) more Hrec' Hne' Hmore).
    + intros candidate Hh Hm.
      apply (split_turn_spec _ _ _ _ _ _ _ Hhere) in Hh
        as (_ & _ & t & _ & _ & _ & _ & ->).
      apply (split_loop_spec re_match recurse index stem rest (part ++ [c]) more)
        in Hm as (pre & post & t' & _ & E & _); try assumption.
      * injection E as E _. apply (f_equal (@List.length _)) in E.
        rewrite !length_app in E. simpl in E. lia.
      * intros stem' suffix res Hle Hr. now apply (Hrec' stem' suffix res Hle Hr).
Qed.

Lemma recursive_split_NoDup_bounded (self : MorphAnalyzer) :
  forall n stem suffix res,
    (len suffix <= n)%nat ->
    _recursive_split re_match self stem suffix = Ok res ->
    NoDup res.
Proof.
  induction n as [|n IH]; intros stem [|c rest] res Hlen H; simpl in *;
    try lia; try (injection H as <-; repeat constructor; intros []).
  apply (split_loop_NoDup (_recursive_split re_match self) (rules_by_add self)
           stem rest [c] res); try assumption; [|discriminate].
  intros stem' suffix res' Hle Hr. split.
  - apply (recursive_split_spec_bounded re_match self (len suffix)); auto.
  - apply (IH stem' suffix); [lia | assumption].
Qed.

End DecomposerNoDup.

(** X9: the decomposer returns no candidate twice. *)
Theorem recursive_split_NoDup
  (re_match : str -> str -> result bool) (self : MorphAnalyzer)
  (stem_ suffix : str) (res : list (list str)) :
  _recursive_split re_match self stem_ suffix = Ok res -> NoDup res.
Proof. apply (recursive_split_NoDup_bounded re_match self (len suffix)). lia. Qed.

Lemma recursive_split_NoDup_witness : NoDup [[u "dim"]].
Proof.
  apply (recursive_split_NoDup PyLib.re_match
           (Examples.gor_analyzer Examples.rule_dim) (u "gör") (u "dim")).
  vm_compute. reflexivity.
Defined.

(** X10: in an analyzer built from a rule set, every part of every
    candidate of the decomposer is non-empty and is the [add] of a rule of
    the rule set. *)
Theorem recursive_split_parts_are_adds
  (re_match : str -> str -> result bool) (d : Lexicon) (table : RuleSet)
  (stem_ suffix : str) (res : list (list str)) (candidate : list str)
  (part : str) :
  _recursive_split re_match (mkAnalyzer d table (_build_reverse_rules table))
                   stem_ suffix = Ok res ->
  In candidate res -> In part candidate ->
  part <> [] /\ exists rule, In rule (all_rules table) /\ add rule = part.
Proof.
  intros H Hc Hp.
  apply (recursive_split_spec_bounded re_match _ (len suffix) _ _ _ (le_n _) H)
    in Hc as (Hv & _).
  apply valid_split_parts in Hv. rewrite Forall_forall in Hv.
  destruct (Hv part Hp) as (Hne & indexed & Hd). split; [assumption|].
  simpl in Hd.
  assert (Hex : exists rule, In rule indexed).
  { rewrite index_exact in Hd.
    destruct (filter _ (all_rules table)) as [|r rs]; [discriminate|].
    injection Hd as <-. exists r. now left. }
  destruct Hex as (rule & Hr). exists rule.
  now apply (index_get_In table part indexed rule Hd).
Qed.

Lemma recursive_split_parts_are_adds_witness :
  u "dim" <> [] /\
  exists rule, In rule (all_rules [(u "F1", [Examples.rule_dim])]) /\
               add rule = u "dim".
Proof.
  apply (recursive_split_parts_are_adds PyLib.re_match Examples.gor_dictionary
           [(u "F1", [Examples.rule_dim])] (u "gör") (u "dim")
           [[u "dim"]] [u "dim"] (u "dim")).
  - vm_compute. reflexivity.
  - left. reflexivity.
  - left. reflexivity.
Defined.

(** ** The scorer, further *)

Lemma filter_all_true {A} (p : A -> bool) (l : list A) :
  (forall x, In x l -> p x = true) -> filter p l = l.
Proof.
  induction l as [|x l IH]; intro H; simpl; [reflexivity|].
  rewrite (H x (or_introl eq_refl)), IH; [reflexivity|].
  intros y Hy. apply H. now right.
Qed.

Lemma exists_best (known : list str) (l : list (list str)) :
  l <> [] ->
  exists c, In c l /\
            forall other, In other l ->
                          (candidate_score known other
                           <= candidate_score known c)%Q.
Proof.
  induction l as [|c0 l IH]; intro Hne; [contradiction|].
  destruct l as [|c1 l].
  - exists c0. split; [now left|]. intros o [<-|[]]. apply Qle_refl.
  - destruct IH as (m & Hm & Hmax); [discriminate|].
    destruct (Qlt_le_dec (candidate_score known m) (candidate_score known c0))
      as [Hlt|Hle].
    + exists c0. split; [now left|]. intros o [<-|Ho]; [apply Qle_refl|].
      apply Qle_trans with (candidate_score known m); [now apply Hmax|].
      now apply Qlt_le_weak.
    + exists m. split; [now right|]. intros o [<-|Ho]; [assumption|].
      now apply Hmax.
Qed.

(** X11: given at least one candidate the scorer returns at least one. *)
Theorem select_best_match_not_empty (self : MorphAnalyzer)
  (candidates : list (list str)) :
  candidates <> [] -> _select_best_match self candidates <> [].
Proof.
  intros Hne E. rewrite select_best_match_spec in E.
  destruct (exists_best (known_suffixes self) candidates Hne) as (c & Hc & Hmax).
  assert (Hin : In c (filter (is_best (known_suffixes self) candidates) candidates)).
  { apply filter_In. split; [assumption|]. unfold is_best.
    apply forallb_forall. intros o Ho. apply Qle_bool_iff. now apply Hmax. }
  rewrite E in Hin. contradiction.
Qed.

Lemma select_best_match_not_empty_witness :
  _select_best_match (Examples.gor_analyzer Examples.rule_dim)
                     [[u "dim"]; [u "d"; u "im"]] <> [].
Proof.
  apply (select_best_match_not_empty (Examples.gor_analyzer Examples.rule_dim)
           [[u "dim"]; [u "d"; u "im"]]).
  discriminate.
Defined.

(** X12: scoring what the scorer returned returns it again: the scorer is
    idempotent. *)
Theorem select_best_match_idempotent (self : MorphAnalyzer)
  (candidates : list (list str)) :
  _select_best_match self (_select_best_match self candidates)
  = _select_best_match self candidates.
Proof.
  rewrite (select_best_match_spec self (_select_best_match self candidates)).
  apply filter_all_true. intros c Hc. unfold is_best.
  apply forallb_forall. intros o Ho.
  rewrite select_best_match_spec in Hc, Ho.
  apply filter_In in Hc as (_ & Hbest). apply filter_In in Ho as (Ho & _).
  unfold is_best in Hbest. rewrite forallb_forall in Hbest. now apply Hbest.
Qed.

Lemma score_part_value (known : list str) (acc : Z) (part : str) :
  score_part known acc part = (acc + part_value known part)%Z.
Proof.
  unfold score_part, part_value.
  destruct (str_mem part known); [reflexivity|].
  destruct (Nat.eqb (len part) 1); lia.
Qed.

(** X13: one more part at the end of a candidate changes its score by the
    value of the part plus one half: by +10.5 for a known part, by -0.5 for
    an unknown part of length 1 and by -4.5 for any other part. *)
Theorem candidate_score_append (known : list str) (candidate : list str)
  (part : str) :
  (candidate_score known (candidate ++ [part])
   == candidate_score known candidate
      + (if str_mem part known then 21 # 2
         else if Nat.eqb (len part) 1 then - (1 # 2)
         else - (9 # 2)))%Q.
Proof.
  unfold candidate_score.
  rewrite fold_left_app, length_app. simpl fold_left.
  rewrite score_part_value, Nat2Z.inj_add, !inject_Z_plus.
  unfold part_value. simpl List.length.
  destruct (str_mem part known); [|destruct (Nat.eqb (len part) 1)];
    change (inject_Z (Z.of_nat 1)) with 1%Q; ring.
Qed.

(** ** The orchestrator, further *)

Lemma for_each_all_nil {A B} (body : A -> result (list B)) (l : list A) :
  (forall a, In a l -> body a = Ok []) -> for_each body l = Ok [].
Proof.
  induction l as [|a l IH]; intro H; simpl; [reflexivity|].
  rewrite (H a (or_introl eq_refl)), IH; [reflexivity|].
  intros b Hb. apply H. now right.
Qed.

Lemma for_each_app {A B} (body : A -> result (list B)) (l1 l2 : list A) o1 o2 :
  for_each body l1 = Ok o1 -> for_each body l2 = Ok o2 ->
  for_each body (l1 ++ l2) = Ok (o1 ++ o2).
Proof.
  revert o1. induction l1 as [|a l1 IH]; intros o1 H1 H2; simpl in *.
  - injection H1 as <-. assumption.
  - apply bind_Ok in H1 as (oa & Ha & H1).
    apply bind_Ok in H1 as (o1' & Hl1 & [= <-]).
    rewrite Ha. simpl. rewrite (IH o1' Hl1 H2). simpl. now rewrite app_assoc.
Qed.

Lemma split_char_app (sep : codepoint) (a b : str) :
  split_char sep (a ++ sep :: b) = split_char sep a ++ split_char sep b.
Proof.
  induction a as [|c a IH]; simpl.
  - unfold chr_eqb. now rewrite N.eqb_refl.
  - destruct (chr_eqb c sep); [now rewrite IH|].
    rewrite IH. pose proof (split_char_not_nil sep a) as Hne.
    destruct (split_char sep a); [contradiction | reflexivity].
Qed.

Lemma records_of_app (l1 l2 : list analysis) :
  records_of (l1 ++ l2) = records_of l1 ++ records_of l2.
Proof. unfold records_of. apply flat_map_app. Qed.

Section OrchestratorFurther.
Variable re_match : str -> str -> result bool.

Lemma analyses_all_records (self : MorphAnalyzer) words analyses :
  for_each (analyze_word re_match self) words = Ok analyses ->
  Forall (fun x => exists r, x = Rec r) analyses.
Proof.
  intro H. apply Forall_forall. intros x Hx.
  apply (analyses_are_records re_match self words analyses H) in Hx
    as (w & r & _ & -> & _). eauto.
Qed.

Lemma records_of_result (analyses : list analysis) (message : str) :
  Forall (fun x => exists r, x = Rec r) analyses ->
  records_of (match analyses with
              | [] => [Diag message]
              | _ => analyses
              end) = records_of analyses.
Proof. destruct analyses; reflexivity. Qed.

Lemma stripped_root_length (root_ : str) (rule : AffixRule) (modified : str) :
  stripped_root re_match root_ rule modified -> (len modified <= len root_)%nat.
Proof.
  intros [(_ & _ & tail & -> & _)|(_ & ->)]; [|lia].
  unfold len. rewrite length_app. lia.
Qed.


End OrchestratorFurther.

Section AnalyzeProperties.
Variable re_match : str -> str -> result bool.
Variable lower : str -> str.
Import Examples.

(** X14: a result of [analyze] never mixes messages and records: it is
    either the one message naming the last input word, and then no input
    word has an analysis, or a non-empty list of records only. *)
Theorem analyze_result_shape (self : MorphAnalyzer) (sentences : str)
  (l : list analysis) :
  analyze re_match lower self sentences = Ok l ->
  (l = [Diag (no_analysis_found (last (words_of lower sentences) []))] /\
   forall word r, In word (words_of lower sentences) ->
                  ~ derives re_match self word r)
  \/
  (l <> [] /\ Forall (fun x => exists r, x = Rec r) l).
Proof.
  intro H. apply analyze_returns_inv in H as (analyses & Hf & ->).
  destruct analyses as [|a rest].
  - left. split; [reflexivity|]. intros word r Hw Hd.
    apply (analyses_are_records re_match self _ _ Hf (Rec r)).
    now exists word, r.
  - right. split; [discriminate|].
    now apply (analyses_all_records re_match self _ _ Hf).
Qed.

(** X15: the root of every record is a root of the dictionary, strictly
    shorter than an input word and a prefix of it, and the flag of the
    record is one of that root's flags and a key of the rule set. *)
Theorem record_root_is_proper_prefix (self : MorphAnalyzer) (sentences : str)
  (l : list analysis) (r : AnalysisRecord) :
  analyze re_match lower self sentences = Ok l ->
  In (Rec r) l ->
  exists word entry flag_rules,
    In word (words_of lower sentences) /\
    In (root r, entry) (dictionary self) /\
    (len (root r) < len word)%nat /\
    (exists rest, word = root r ++ rest) /\
    In (flag_number r) (entry_flags entry) /\
    dict_get (flag_number r) (rules self) = Some flag_rules.
Proof.
  intros H Hin.
  apply (analyze_records re_match lower self sentences l H) in Hin
    as (word & Hw & entry & flag_rules & rule & m & splits &
        Hd & Hlen & Hsw & Hf & Hg & _).
  exists word, entry, flag_rules. repeat split; try assumption.
  now apply startswith_prefix.
Qed.

(** X16: no record has an empty stem; its list of suffixes is not empty
    and no suffix in it is empty. *)
Theorem record_stem_not_empty (self : MorphAnalyzer) (sentences : str)
  (l : list analysis) (r : AnalysisRecord) :
  analyze re_match lower self sentences = Ok l ->
  In (Rec r) l ->
  stem r <> [] /\ suffixes r <> [] /\ Forall (fun part => part <> []) (suffixes r).
Proof.
  intros H Hin.
  apply (analyze_records re_match lower self sentences l H) in Hin
    as (word & Hw & entry & flag_rules & rule & m & splits &
        Hd & Hlen & Hsw & Hf & Hg & Hr & (_ & Hs & He) & Hst & Hsp & Hin).
  apply stripped_root_length in Hs.
  assert (Hne : stem r <> []).
  { rewrite Hst. intro E. rewrite E, app_nil_r in He. subst m. lia. }
  apply (recursive_split_spec_bounded re_match self _ _ _ _ (le_n _) Hsp)
    in Hin as (Hv & Hc).
  split; [assumption|]. split.
  - intro E. rewrite E in Hc. simpl in Hc. rewrite <- Hst in Hc. congruence.
  - apply valid_split_parts in Hv. revert Hv. apply Forall_impl. tauto.
Qed.

(** No input word has a candidate root with rules. *)
Lemma analyze_no_candidate (self : MorphAnalyzer) (sentences : str) :
  (forall word item,
     In word (words_of lower sentences) -> In item (dictionary self) ->
     (len word <= len (fst item))%nat \/
     startswith word (fst item) = false \/
     forall flag, In flag (entry_flags (snd item)) ->
                  dict_get flag (rules self) = None) ->
  analyze re_match lower self sentences
  = Ok [Diag (no_analysis_found (last (words_of lower sentences) []))].
Proof.
  intro H. unfold analyze, analyze_body. fold (words_of lower sentences).
  rewrite for_each_all_nil; [reflexivity|].
  intros word Hw. unfold analyze_word. apply for_each_all_nil.
  intros item Hi. unfold apply_root.
  destruct (H word item Hw Hi) as [Hlen|[Hsw|Hflags]].
  - apply Nat.leb_le in Hlen. now rewrite Hlen.
  - rewrite Hsw. now destruct (Nat.leb (len word) (len (fst item))).
  - destruct (Nat.leb (len word) (len (fst item))); [reflexivity|].
    destruct (startswith word (fst item)); [|reflexivity]. simpl.
    apply for_each_all_nil. intros flag Hf. unfold apply_flag.
    now rewrite (Hflags flag Hf).
Qed.

(** X17: a word is turned down before any pattern is evaluated when, for
    every root of the dictionary, the word is not longer than the root, or
    does not start with it, or the root has no flag with rules.  When this
    holds for every input word, [analyze] returns the one message and does
    not raise, whatever the patterns of the rules. *)
Theorem analyze_without_candidate_root (self : MorphAnalyzer) (sentences : str) :
  (forall word item,
     In word (words_of lower sentences) -> In item (dictionary self) ->
     (len word <= len (fst item))%nat \/
     startswith word (fst item) = false \/
     forall flag, In flag (entry_flags (snd item)) ->
                  dict_get flag (rules self) = None) ->
  analyze re_match lower self sentences
  = Ok [Diag (no_analysis_found (last (words_of lower sentences) []))].
Proof. apply analyze_no_candidate. Qed.

(** X18: the records of two sentences joined by a space are the records of
    the first followed by the records of the second. *)
Theorem analyze_joined_sentences (self : MorphAnalyzer) (s1 s2 : str)
  (l1 l2 : list analysis) :
  analyze re_match lower self s1 = Ok l1 ->
  analyze re_match lower self s2 = Ok l2 ->
  exists l,
    analyze re_match lower self (s1 ++ 32 :: s2) = Ok l /\
    records_of l = records_of l1 ++ records_of l2.
Proof.
  intros H1 H2.
  apply analyze_returns_inv in H1 as (a1 & Hf1 & ->).
  apply analyze_returns_inv in H2 as (a2 & Hf2 & ->).
  unfold analyze, analyze_body.
  rewrite split_char_app, map_app.
  rewrite (for_each_app _ _ _ _ _ Hf1 Hf2). simpl.
  eexists. split; [reflexivity|].
  rewrite !records_of_result, records_of_app; try reflexivity.
  - now apply (analyses_all_records re_match self _ _ Hf2).
  - now apply (analyses_all_records re_match self _ _ Hf1).
  - apply Forall_app. split.
    + now apply (analyses_all_records re_match self _ _ Hf1).
    + now apply (analyses_all_records re_match self _ _ Hf2).
Qed.


End AnalyzeProperties.

Section AnalyzeWitnesses.
Import Examples.

Lemma analyze_result_shape_witness :
  ([Rec record_dim]
   = [Diag (no_analysis_found
              (last (words_of PyLib.lower (u "zzz gördim")) []))] /\
   forall word r, In word (words_of PyLib.lower (u "zzz gördim")) ->
                  ~ derives PyLib.re_match (gor_analyzer rule_dim) word r)
  \/
  ([Rec record_dim] <> [] /\
   Forall (fun x => exists r, x = Rec r) [Rec record_dim]).
Proof.
  apply (analyze_result_shape PyLib.re_match PyLib.lower
           (gor_analyzer rule_dim) (u "zzz gördim") [Rec record_dim]).
  vm_compute. reflexivity.
Defined.

Lemma record_root_is_proper_prefix_witness :
  exists word entry flag_rules,
    In word (words_of PyLib.lower (u "zzz gördim")) /\
    In (root record_dim, entry) (dictionary (gor_analyzer rule_dim)) /\
    (len (root record_dim) < len word)%nat /\
    (exists rest, word = root record_dim ++ rest) /\
    In (flag_number record_dim) (entry_flags entry) /\
    dict_get (flag_number record_dim) (rules (gor_analyzer rule_dim))
    = Some flag_rules.
Proof.
  apply (record_root_is_proper_prefix PyLib.re_match PyLib.lower
           (gor_analyzer rule_dim) (u "zzz gördim") [Rec record_dim] record_dim).
  - vm_compute. reflexivity.
  - left. reflexivity.
Defined.

Lemma record_stem_not_empty_witness :
  stem record_dim <> [] /\ suffixes record_dim <> [] /\
  Forall (fun part => part <> []) (suffixes record_dim).
Proof.
  apply (record_stem_not_empty PyLib.re_match PyLib.lower
           (gor_analyzer rule_dim) (u "zzz gördim") [Rec record_dim] record_dim).
  - vm_compute. reflexivity.
  - left. reflexivity.
Defined.

Lemma analyze_without_candidate_root_witness :
  analyze PyLib.re_match PyLib.lower (gor_analyzer rule_bad_cond) (u "gör")
  = Ok [Diag (no_analysis_found (last (words_of PyLib.lower (u "gör")) []))].
Proof.
  apply (analyze_without_candidate_root PyLib.re_match PyLib.lower
           (gor_analyzer rule_bad_cond) (u "gör")).
  intros word item Hw Hi. vm_compute in Hw. simpl in Hi.
  destruct Hw as [<-|[]]. destruct Hi as [<-|[]].
  left. vm_compute. apply le_n.
Defined.

Lemma analyze_joined_sentences_witness :
  exists l,
    analyze PyLib.re_match PyLib.lower (gor_analyzer rule_dim)
            (u "zzz" ++ 32 :: u "gördim") = Ok l /\
    records_of l
    = records_of [Diag (no_analysis_found (u "zzz"))]
      ++ records_of [Rec record_dim].
Proof.
  apply (analyze_joined_sentences PyLib.re_match PyLib.lower
           (gor_analyzer rule_dim) (u "zzz") (u "gördim")
           [Diag (no_analysis_found (u "zzz"))] [Rec record_dim]);
    vm_compute; reflexivity.
Defined.

End AnalyzeWitnesses.

(** ** From the files to the analyses *)

Section Construction.
Import Dataloader.

Lemma init_inv (fs : filesystem) (root_path : path) (a : MorphAnalyzer) :
  MorphAnalyzer__init__ fs root_path = Ok a ->
  load_dic fs (root_path ++ "/data/tr_TR.dic")%string = Ok (Some (dictionary a)) /\
  load_aff fs (root_path ++ "/data/tr_TR.aff")%string = Ok (Some (rules a)) /\
  rules_by_add a = _build_reverse_rules (rules a).
Proof.
  unfold MorphAnalyzer__init__. intro H.
  apply bind_Ok in H as (d & Hd & H). apply bind_Ok in H as (r & Hr & H).
  destruct d as [d|], r as [r|]; try discriminate.
  injection H as <-. simpl. auto.
Qed.

(** X20: the records of an analyzer that [__init__] built from the files
    carry clean texts: the stem is never ["0"] and has no white space, the
    root has no slash, and the flag is not empty and has no white space. *)
Theorem constructed_analyzer_records_clean
  (re_match : str -> str -> result bool) (lower : str -> str)
  (fs : filesystem) (root_path : path) (a : MorphAnalyzer)
  (sentences : str) (l : list analysis) (r : AnalysisRecord) :
  MorphAnalyzer__init__ fs root_path = Ok a ->
  analyze re_match lower a sentences = Ok l ->
  In (Rec r) l ->
  stem r <> u "0" /\ no_space (stem r) /\
  ~ In 47 (root r) /\
  flag_number r <> [] /\ no_space (flag_number r).
Proof.
  intros Hinit H Hin.
  apply init_inv in Hinit as (Hd & Ha & _).
  apply load_dic_invariant in Hd as (_ & Hentries).
  apply load_aff_invariant in Ha as (_ & Hrules & Hflags).
  apply (analyze_records re_match lower a sentences l H) in Hin
    as (word & _ & entry & flag_rules & rule & m & splits &
        Hde & _ & _ & _ & Hg & Hr & _ & Hst & _).
  apply dict_get_In in Hg.
  rewrite Forall_forall in Hentries, Hrules, Hflags.
  destruct (Hentries _ Hde) as (_ & _ & _ & Hslash & _).
  destruct (Hflags _ Hg) as (Hfne & Hfns & _).
  assert (Hall : In rule (all_rules (rules a)))
    by (apply all_rules_In; now exists (flag_number r), flag_rules).
  destruct (Hrules _ Hall) as (_ & _ & Hadd & _ & Hns & _).
  rewrite Hst. auto.
Qed.

Lemma constructed_analyzer_records_clean_witness :
  stem Examples.record_dim <> u "0" /\ no_space (stem Examples.record_dim) /\
  ~ In 47 (root Examples.record_dim) /\
  flag_number Examples.record_dim <> [] /\
  no_space (flag_number Examples.record_dim).
Proof.
  apply (constructed_analyzer_records_clean PyLib.re_match PyLib.lower
           (fun p => if String.eqb p "/srv/data/tr_TR.dic"
                     then Content [u "1"; u "gör/F1"]
                     else Content [u "SFX F1 Y 1"; u "SFX F1 0 dim ."])
           "/srv"%string
           (Examples.gor_analyzer Examples.rule_dim)
           (u "gördim") [Rec Examples.record_dim] Examples.record_dim).
  - vm_compute. reflexivity.
  - vm_compute. reflexivity.
  - left. reflexivity.
Defined.

(** X21: when the dictionary file is missing or unreadable and the affix
    file is missing, unreadable or a text that decodes to lines, or when the
    affix file is missing or unreadable and the dictionary file is a text
    that decodes to its first line and more, [__init__] still returns an
    analyzer, and that analyzer answers every call with the one message
    naming the last word, for every regular-expression engine. *)
Theorem missing_file_gives_messages_only (fs : filesystem) (root_path : path) :
  ((fs (root_path ++ "/data/tr_TR.dic")%string = Absent \/
    fs (root_path ++ "/data/tr_TR.dic")%string = Unreadable) /\
   (fs (root_path ++ "/data/tr_TR.aff")%string = Absent \/
    fs (root_path ++ "/data/tr_TR.aff")%string = Unreadable \/
    exists lines, fs (root_path ++ "/data/tr_TR.aff")%string = Content lines))
  \/
  ((fs (root_path ++ "/data/tr_TR.aff")%string = Absent \/
    fs (root_path ++ "/data/tr_TR.aff")%string = Unreadable) /\
   exists header lines,
     fs (root_path ++ "/data/tr_TR.dic")%string = Content (header :: lines)) ->
  exists a,
    MorphAnalyzer__init__ fs root_path = Ok a /\
    forall (re_match : str -> str -> result bool) (lower : str -> str)
           (sentences : str),
      analyze re_match lower a sentences
      = Ok [Diag (no_analysis_found (last (words_of lower sentences) []))].
Proof.
  intro H. unfold MorphAnalyzer__init__.
  rewrite load_dic_cases, load_aff_cases.
  destruct H as [(Hdic & Haff)|(Haff & header & lines & Hdic)].
  - destruct Hdic as [Hd|Hd]; rewrite Hd; simpl;
      destruct Haff as [Ha|[Ha|(lines & Ha)]]; rewrite Ha; simpl;
      eexists; (split; [reflexivity|]); intros;
      apply analyze_empty_dictionary.
  - rewrite Hdic.
    destruct Haff as [Ha|Ha]; rewrite Ha; simpl;
      eexists; (split; [reflexivity|]);
      intros re_match lower sentences; apply analyze_no_candidate;
      intros word item _ _; right; right; intros flag _; reflexivity.
Qed.

Lemma missing_file_gives_messages_only_witness :
  exists a,
    MorphAnalyzer__init__
      (fun p => if String.eqb p "/srv/data/tr_TR.dic"
                then Content [u "1"; u "gör/F1"] else Absent)
      "/srv"%string = Ok a /\
    forall (re_match : str -> str -> result bool) (lower : str -> str)
           (sentences : str),
      analyze re_match lower a sentences
      = Ok [Diag (no_analysis_found (last (words_of lower sentences) []))].
Proof.
  apply (missing_file_gives_messages_only
           (fun p => if String.eqb p "/srv/data/tr_TR.dic"
                     then Content [u "1"; u "gör/F1"] else Absent)
           "/srv"%string).
  right. split; [left; reflexivity|].
  exists (u "1"), [u "gör/F1"]. reflexivity.
Defined.

End Construction.

(* ------------------------------------------------------------------ *)
(** * The engine under the recursion limit *)


Lemma for_each_mono {A B} (f g : A -> result (list B)) (l : list A) out :
  (forall a o, In a l -> f a = Ok o -> g a = Ok o) ->
  for_each f l = Ok out -> for_each g l = Ok out.
Proof.
  revert out. induction l as [|a l IH]; intros out H Hf; simpl in *;
    [assumption|].
  apply bind_Ok in Hf as (o1 & Ha & Hf). apply bind_Ok in Hf as (o2 & Hl & E).
  rewrite (H a o1 (or_introl eq_refl) Ha). simpl.
  rewrite (IH o2); [exact E | | exact Hl].
  intros b o Hb. apply H. now right.
Qed.

Section Within.
Variable re_match : str -> str -> result bool.


Lemma split_loop_mono (rec1 rec2 : str -> str -> result (list (list str)))
  (index : RuleIndex) (stem : str) :
  (forall stem' suffix res, rec1 stem' suffix = Ok res ->
                            rec2 stem' suffix = Ok res) ->
  forall rest part out,
    split_loop re_match rec1 index stem part rest = Ok out ->
    split_loop re_match rec2 index stem part rest = Ok out.
Proof.
  intro H. induction rest as [|c rest IH]; intros part out Hl;
    rewrite split_loop_unfold in Hl; rewrite split_loop_unfold;
    apply bind_Ok in Hl as (here & Hh & Hl);
    apply bind_Ok in Hl as (more & Hm & E).
  - injection Hm as <-.
    destruct (dict_get part index) as [indexed|];
      [|injection Hh as <-; exact E].
    apply bind_Ok in Hh as (valid & Hv & Hh). rewrite Hv. simpl.
    destruct valid; [|injection Hh as <-; exact E].
    apply bind_Ok in Hh as (sub & Hs & [= <-]). rewrite (H _ _ _ Hs). exact E.
  - rewrite (IH _ _ Hm).
    destruct (dict_get part index) as [indexed|];
      [|injection Hh as <-; exact E].
    apply bind_Ok in Hh as (valid & Hv & Hh). rewrite Hv. simpl.
    destruct valid; [|injection Hh as <-; exact E].
    apply bind_Ok in Hh as (sub & Hs & [= <-]). rewrite (H _ _ _ Hs). exact E.
Qed.


(** What the decomposer returns under the limit it returns without it. *)
Lemma recursive_split_within_sound (self : MorphAnalyzer) :
  forall room stem suffix res,
    _recursive_split_within re_match self room stem suffix = Ok res ->
    _recursive_split re_match self stem suffix = Ok res.
Proof.
  induction room as [|room IH]; intros stem suffix res H;
    [destruct suffix; discriminate|].
  destruct suffix as [|c rest]; [exact H|]. simpl in *.
  revert H. apply split_loop_mono. apply IH.
Qed.

(** When the room is used up the decomposer raises. *)
Lemma recursive_split_within_no_room (self : MorphAnalyzer) (stem suffix : str) :
  _recursive_split_within re_match self 0 stem suffix = Raise RecursionError.
Proof. destruct suffix; reflexivity. Qed.

Lemma apply_rule_with_unbounded (self : MorphAnalyzer) word root_ flag rule :
  apply_rule_with re_match (_recursive_split re_match self) self word root_ flag rule
  = apply_rule re_match self word root_ flag rule.
Proof. reflexivity. Qed.


Lemma apply_rule_with_mono (d1 d2 : str -> str -> result (list (list str)))
  (self : MorphAnalyzer) word root_ flag rule out :
  (forall stem_ suffix res, d1 stem_ suffix = Ok res -> d2 stem_ suffix = Ok res) ->
  apply_rule_with re_match d1 self word root_ flag rule = Ok out ->
  apply_rule_with re_match d2 self word root_ flag rule = Ok out.
Proof.
  intros H. unfold apply_rule_with.
  destruct (if str_eqb (cond rule) (u ".") then Ok true
            else re_match (cond rule) root_) as [[|]|e]; simpl; try tauto.
  destruct (match strip rule with
            | [] => Ok root_
            | _ :: _ =>
                m <- re_match (strip rule) root_ ;;
                Ok (if (m : bool)
                    then slice_to_neg (len (strip rule)) root_ else root_)
            end) as [m|e]; simpl; [|tauto].
  destruct (str_eqb (m ++ add rule) word); [|tauto].
  intro Hd. apply bind_Ok in Hd as (splits & Hs & E).
  now rewrite (H _ _ _ Hs).
Qed.

End Within.

Section AnalyzeWithin.
Variable re_match : str -> str -> result bool.
Variable lower : str -> str.

Lemma analyze_with_unbounded (self : MorphAnalyzer) (sentences : str) :
  match analyze_body_with re_match lower (_recursive_split re_match self)
                          self sentences with
  | Ok analyses => Ok analyses
  | Raise _ => Raise (TypeError cannot_catch)
  end = analyze re_match lower self sentences.
Proof. reflexivity. Qed.


(** What [analyze] returns under the limit it returns without it: the
    properties of the results of [analyze] hold under the limit. *)
Lemma analyze_within_sound (room : nat) (self : MorphAnalyzer)
  (sentences : str) (l : list analysis) :
  analyze_within re_match lower room self sentences = Ok l ->
  analyze re_match lower self sentences = Ok l.
Proof.
  rewrite <- analyze_with_unbounded.
  unfold analyze_within, analyze_body_with. intro H.
  destruct (for_each (analyze_word_with re_match
                        (_recursive_split_within re_match self room) self)
                     (List.map lower (split_char 32 sentences)))
    as [analyses|e] eqn:Ef; [|discriminate].
  assert (Hg : for_each (analyze_word_with re_match
                           (_recursive_split re_match self) self)
                        (List.map lower (split_char 32 sentences))
               = Ok analyses); [|rewrite Hg; exact H].
  revert Ef. apply for_each_mono.
  intros word o _. unfold analyze_word_with. apply for_each_mono.
  intros item o' _. unfold apply_root_with.
  destruct (Nat.leb (len word) (len (fst item))); [tauto|].
  destruct (negb (startswith word (fst item))); [tauto|].
  apply for_each_mono. intros flag o'' _. unfold apply_flag_with.
  destruct (dict_get flag (rules self)); [|tauto].
  apply for_each_mono. intros rule o''' _. apply apply_rule_with_mono.
  apply recursive_split_within_sound.
Qed.

End AnalyzeWithin.

Section RecursionLimit.
Import Examples.

(** The decomposer takes one frame per part: with the rules [add="a"] and
    [add="aaaa"] the word ["göraaaa"] needs five frames; with three left
    the call raises, with five it returns both decompositions. *)
Lemma long_add_uses_up_the_stack :
  analyze_within PyLib.re_match PyLib.lower 3 a_aaaa_analyzer (u "göraaaa")
  = Raise (TypeError cannot_catch)
  /\
  analyze_within PyLib.re_match PyLib.lower 5 a_aaaa_analyzer (u "göraaaa")
  = Ok [Rec (mkRecord (u "gör") (u "aaaa") [u "a"; u "a"; u "a"; u "a"] (u "F1"));
        Rec (mkRecord (u "gör") (u "aaaa") [u "aaaa"] (u "F1"))].
Proof. split; vm_compute; reflexivity. Qed.





End RecursionLimit.

(* ------------------------------------------------------------------ *)
(** * The strip step against the specification's words *)



Section ClaimedStrip.
Variable re_match : str -> str -> result bool.


End ClaimedStrip.

Section RevisedClaims.
Import Examples.




End RevisedClaims.
